(** * Creator-Bot: the engagement-tracking core

    A shallow embedding of [src/database/schema.py] (the SQLite store),
    of the reaction and message listeners of [src/events/message_handler.py],
    of the [status] and [change_link] commands of
    [src/commands/engagement.py], of the commands of
    [src/commands/admin.py] that write state and of the start-up of
    [src/bot.py], followed by the properties the specification states
    about them.

    Conventions.
    - Python [int] and SQLite [INTEGER] values are [Z].
    - A Python [str] is the list of its Unicode code points ([list N]).
    - A table is the list of its rows in scan order, which is the order
      of the rowid: [AUTOINCREMENT] keys come from a per-table counter that
      a [DELETE] does not rewind, and the rowid of [users] is [user_id].
      The [configs] table, read by key only, is a map.
    - [CURRENT_TIMESTAMP] and the answers of the chat platform are inputs
      of the operation that reads them.
    - A Python [set] is a [gset], a [dict] a [gmap]. *)

From Stdlib Require Import ZArith NArith List String Ascii DecimalString Lia.
From stdpp Require Import base option list gmap sets sorting.

Local Open Scope Z_scope.

(** ** Strings *)

Abbreviation str := (list N).

(** The code points of an ASCII literal. *)
Definition py (s : string) : str :=
  List.map N_of_ascii (list_ascii_of_string s).

(** ** The tables of [create_tables] *)

Module User.
Record t := mk {
  user_id : Z;            (* INTEGER PRIMARY KEY *)
  username : str;         (* TEXT NOT NULL *)
  total_points : Z;       (* INTEGER DEFAULT 0 *)
  created_at : Z          (* TIMESTAMP DEFAULT CURRENT_TIMESTAMP *)
}.
End User.

Module Session.
Record t := mk {
  session_id : Z;         (* INTEGER PRIMARY KEY AUTOINCREMENT *)
  user_id : Z;            (* INTEGER NOT NULL *)
  link : str;             (* TEXT NOT NULL *)
  message_id : Z;         (* INTEGER *)
  submitted_at : Z;       (* TIMESTAMP DEFAULT CURRENT_TIMESTAMP *)
  engaged : bool;         (* BOOLEAN DEFAULT FALSE *)
  channel_id : option Z   (* added by ALTER TABLE; NULL on older rows *)
}.
End Session.

Module Engagement.
Record t := mk {
  engagement_id : Z;      (* INTEGER PRIMARY KEY AUTOINCREMENT *)
  engager_id : Z;         (* INTEGER NOT NULL *)
  target_session_id : Z;  (* INTEGER NOT NULL *)
  engaged_at : Z          (* TIMESTAMP DEFAULT CURRENT_TIMESTAMP *)
}.
End Engagement.

(** The [configs] table: key TEXT PRIMARY KEY, value TEXT NOT NULL. *)
Abbreviation Configs := (gmap str str).

(** The store. [seq_sessions] and [seq_engagements] are the
    [sqlite_sequence] entries of the two [AUTOINCREMENT] tables. *)
Record Database := mkDatabase {
  users : list User.t;
  sessions : list Session.t;
  engagements : list Engagement.t;
  seq_sessions : Z;
  seq_engagements : Z;
  configs : Configs
}.

Definition empty_db : Database := mkDatabase [] [] [] 0 0 ∅.

(** The dict built by [get_active_session] from the selected row. *)
Record SessionDict := mkSessionDict {
  d_session_id : Z;
  d_link : str;
  d_message_id : Z;
  d_engaged : bool;
  d_user_id : Z;
  d_channel_id : option Z
}.

Definition session_dict (row : Session.t) : SessionDict :=
  {| d_session_id := Session.session_id row;
     d_link := Session.link row;
     d_message_id := Session.message_id row;
     d_engaged := Session.engaged row;
     d_user_id := Session.user_id row;
     d_channel_id := Session.channel_id row |}.

(** ** SQL building blocks *)

(** [ORDER BY]: a stable insertion sort; [le x y] says that [x] may come
    before [y]. Rows with equal keys keep their scan order. *)
Fixpoint insert_by {A} (le : A -> A -> bool) (x : A) (l : list A) : list A :=
  match l with
  | [] => [x]
  | y :: l' => if le x y then x :: l else y :: insert_by le x l'
  end.

Definition order_by {A} (le : A -> A -> bool) (l : list A) : list A :=
  foldr (insert_by le) [] l.

Definition desc {A} (key : A -> Z) (x y : A) : bool := key y <=? key x.
Definition asc {A} (key : A -> Z) (x y : A) : bool := key x <=? key y.

(** [LIMIT n]: a negative limit means no limit. *)
Definition limit {A} (n : Z) (l : list A) : list A :=
  if n <? 0 then l else take (Z.to_nat n) l.

(** The [MAX] aggregate; [None] is SQL's NULL on an empty group. *)
Definition MAX (l : list Z) : option Z :=
  match l with
  | [] => None
  | x :: l' => Some (foldl Z.max x l')
  end.

(** ** [Database] methods *)

Definition set_username (name : str) (u : User.t) : User.t :=
  User.mk (User.user_id u) name (User.total_points u) (User.created_at u).

(** A new row of [users] takes its place in key order: [user_id] is the
    rowid of the table, and a scan goes by rowid. *)
Fixpoint insert_user (row : User.t) (us : list User.t) : list User.t :=
  match us with
  | [] => [row]
  | u :: us' =>
      if User.user_id row <? User.user_id u then row :: us
      else u :: insert_user row us'
  end.

(** [add_user]: INSERT ... ON CONFLICT(user_id) DO UPDATE SET username. *)
Definition add_user (db : Database) (user_id : Z) (username : str) (now : Z)
  : Database :=
  let us := users db in
  let us' :=
    if decide (user_id ∈ User.user_id <$> us)
    then (fun u => if decide (User.user_id u = user_id)
                   then set_username username u else u) <$> us
    else insert_user (User.mk user_id username 0 now) us in
  mkDatabase us' (sessions db) (engagements db)
             (seq_sessions db) (seq_engagements db) (configs db).

(** [add_session]: INSERT INTO sessions; returns [cursor.lastrowid]. *)
Definition add_session (db : Database) (user_id : Z) (link : str)
    (message_id channel_id : Z) (now : Z) : Database * Z :=
  let rowid := seq_sessions db + 1 in
  let row := Session.mk rowid user_id link message_id now false
                        (Some channel_id) in
  (mkDatabase (users db) (sessions db ++ [row]) (engagements db)
              rowid (seq_engagements db) (configs db), rowid).

(** [get_active_session]: WHERE user_id = ? ORDER BY submitted_at DESC
    LIMIT 1, then [fetchone]. *)
Definition get_active_session (db : Database) (user_id : Z)
  : option SessionDict :=
  let rows :=
    limit 1 (order_by (desc Session.submitted_at)
               (filter (fun s => Session.user_id s = user_id) (sessions db))) in
  session_dict <$> head rows.

Definition set_engaged (s : Session.t) : Session.t :=
  Session.mk (Session.session_id s) (Session.user_id s) (Session.link s)
             (Session.message_id s) (Session.submitted_at s) true
             (Session.channel_id s).

(** [mark_engaged]: UPDATE sessions SET engaged = TRUE on the row the
    subquery selects. *)
Definition mark_engaged (db : Database) (user_id : Z) : Database :=
  let sub :=
    d_session_id <$> get_active_session db user_id in
  let upd s :=
    if decide (Session.user_id s = user_id ∧ Some (Session.session_id s) = sub)
    then set_engaged s else s in
  mkDatabase (users db) (upd <$> sessions db) (engagements db)
             (seq_sessions db) (seq_engagements db) (configs db).

(** [has_engaged]: SELECT COUNT( * ) ... ; [count[0] > 0]. *)
Definition has_engaged (db : Database) (engager_id target_session_id : Z)
  : bool :=
  let count :=
    length (filter (fun g => Engagement.engager_id g = engager_id ∧
                          Engagement.target_session_id g = target_session_id)
                   (engagements db)) in
  (0 <? Z.of_nat count).

(** INSERT INTO engagements (engager_id, target_session_id); the table
    declares no UNIQUE constraint. *)
Definition insert_engagement (db : Database)
    (engager_id target_session_id : Z) (now : Z) : Database :=
  let rowid := seq_engagements db + 1 in
  let row := Engagement.mk rowid engager_id target_session_id now in
  mkDatabase (users db) (sessions db) (engagements db ++ [row])
             (seq_sessions db) rowid (configs db).

(** [add_engagement]: the existence check, then the INSERT. *)
Definition add_engagement (db : Database) (engager_id target_session_id : Z)
    (now : Z) : Database * bool :=
  if has_engaged db engager_id target_session_id then (db, false)
  else (insert_engagement db engager_id target_session_id now, true).

Definition incr_points (u : User.t) : User.t :=
  User.mk (User.user_id u) (User.username u) (User.total_points u + 1)
          (User.created_at u).

(** [add_point]: UPDATE users SET total_points = total_points + 1
    WHERE user_id = ?. *)
Definition add_point (db : Database) (user_id : Z) : Database :=
  let upd u := if decide (User.user_id u = user_id) then incr_points u else u in
  mkDatabase (upd <$> users db) (sessions db) (engagements db)
             (seq_sessions db) (seq_engagements db) (configs db).

(** [get_leaderboard]: ORDER BY total_points DESC LIMIT ?. *)
Definition get_leaderboard (db : Database) (lim : Z) : list (Z * str * Z) :=
  (fun u => (User.user_id u, User.username u, User.total_points u)) <$>
  limit lim (order_by (desc User.total_points) (users db)).

(** SELECT user_id, MAX(session_id) FROM sessions GROUP BY user_id: one
    row per distinct owner, groups in ascending key order. *)
Definition latest_session_rows (db : Database) : list (Z * Z) :=
  let groups := order_by Z.leb (remove_dups (Session.user_id <$> sessions db)) in
  omap (fun u =>
          (fun m => (u, m)) <$>
          MAX (Session.session_id <$>
               filter (fun s => Session.user_id s = u) (sessions db)))
       groups.

(** [{row[0]: row[1] for row in rows}]. *)
Definition dict_of_rows (rows : list (Z * Z)) : gmap Z Z :=
  foldl (fun m r => <[r.1 := r.2]> m) ∅ rows.

Definition get_latest_sessions_map (db : Database) : gmap Z Z :=
  dict_of_rows (latest_session_rows db).

(** [get_engagers_for_session]: ORDER BY engaged_at ASC. *)
Definition get_engagers_for_session (db : Database) (session_id : Z)
  : list Z :=
  Engagement.engager_id <$>
  order_by (asc Engagement.engaged_at)
    (filter (fun g => Engagement.target_session_id g = session_id)
            (engagements db)).

(** [reset_all_sessions]: DELETE FROM sessions; DELETE FROM engagements. *)
Definition reset_all_sessions (db : Database) : Database :=
  mkDatabase (users db) [] [] (seq_sessions db) (seq_engagements db)
             (configs db).

(** [str(user_id)]: the decimal numeral. *)
Definition str_of_int (z : Z) : str :=
  py (NilZero.string_of_int (Z.to_int z)).

(** SELECT username FROM users WHERE user_id = ?; [fetchone]. *)
Definition select_username (db : Database) (user_id : Z) : option str :=
  User.username <$>
  head (filter (fun u => User.user_id u = user_id) (users db)).

(** The inner loop of [get_non_engaged_users]: [Some true] when some
    other user's latest session has no edge from [user_id] (the loop
    breaks there), [None] when [session_map[other_id]] raises KeyError. *)
Fixpoint missing_engagement (db : Database) (session_map : gmap Z Z)
    (user_id : Z) (others : list Z) : option bool :=
  match others with
  | [] => Some false
  | other_id :: rest =>
      if decide (other_id = user_id)
      then missing_engagement db session_map user_id rest
      else
        match session_map !! other_id with
        | None => None
        | Some sid =>
            if has_engaged db user_id sid
            then missing_engagement db session_map user_id rest
            else Some true
        end
  end.

(** The outer loop, over the users still to visit. *)
Fixpoint non_engaged_loop (db : Database) (session_map : gmap Z Z)
    (user_ids : list Z) (todo : list Z) : option (list (Z * str)) :=
  match todo with
  | [] => Some []
  | user_id :: rest =>
      match missing_engagement db session_map user_id user_ids with
      | None => None
      | Some missing =>
          match non_engaged_loop db session_map user_ids rest with
          | None => None
          | Some tl =>
              if missing
              then
                let username :=
                  default (str_of_int user_id) (select_username db user_id) in
                Some ((user_id, username) :: tl)
              else Some tl
          end
      end
  end.

(** [get_non_engaged_users]; [None] stands for an uncaught KeyError. *)
Definition get_non_engaged_users (db : Database) : option (list (Z * str)) :=
  let user_sessions := latest_session_rows db in
  let user_ids := fst <$> user_sessions in
  let session_map := dict_of_rows user_sessions in
  non_engaged_loop db session_map user_ids user_ids.

(** ** The [status] command *)

Record Status := mkStatus {
  your_link : str;
  engaged_count : nat;
  total_required : nat;
  pending_ids : list Z
}.

(** [status]; [None] is the reply that no link was submitted yet. *)
Definition status (db : Database) (user_id : Z) : option Status :=
  match get_active_session db user_id with
  | None => None
  | Some session =>
      let latest_map := get_latest_sessions_map db in
      let all_user_ids : gset Z := dom latest_map in
      let other_user_ids :=
        order_by Z.leb (filter (fun uid => uid ≠ user_id) (elements all_user_ids)) in
      let total_required := length other_user_ids in
      let engagers := get_engagers_for_session db (d_session_id session) in
      let engaged_set : gset Z := list_to_set engagers in
      let engaged_count := size (engaged_set ∩ (all_user_ids ∖ {[user_id]})) in
      let pending_ids := filter (fun uid => uid ∉ engaged_set) other_user_ids in
      Some (mkStatus (d_link session) engaged_count total_required pending_ids)
  end.

(** ** The URL patterns *)

(** Python's [\s] on [str]: the code points for which [str.isspace]
    holds. *)
Definition is_space (c : N) : bool :=
  ((9 <=? c) && (c <=? 13) || (28 <=? c) && (c <=? 32) ||
   (c =? 133) || (c =? 160) || (c =? 5760) ||
   (8192 <=? c) && (c <=? 8202) || (c =? 8232) || (c =? 8233) ||
   (c =? 8239) || (c =? 8287) || (c =? 12288))%N.

(** The regular expressions the sources use, as a sequence of items. *)
Inductive re_item :=
  | Lit (c : N)                 (* a literal character *)
  | OptLit (c : N)              (* [c?] *)
  | Plus (cls : N -> bool)      (* [cls+], greedy *)
  | Dollar.                     (* [$]: the end, or before a final newline *)

Definition lits (s : string) : list re_item := Lit <$> py s.

(** The loop of a greedy [cls+]: take one more character when possible,
    else hand over to the rest of the pattern [k]. *)
Fixpoint plus_loop (cls : N -> bool) (k : str -> option str) (s : str)
  : option str :=
  match s with
  | c :: s' =>
      if cls c
      then match plus_loop cls k s' with
           | Some r => Some r
           | None => k s'
           end
      else None
  | [] => None
  end.

(** A backtracking matcher anchored at the head of [s]; the result is
    the text left after the match. *)
Fixpoint re_match (items : list re_item) (s : str) : option str :=
  match items with
  | [] => Some s
  | Lit c :: items' =>
      match s with
      | c' :: s' => if (c =? c')%N then re_match items' s' else None
      | [] => None
      end
  | OptLit c :: items' =>
      match s with
      | c' :: s' =>
          if (c =? c')%N
          then match re_match items' s' with
               | Some r => Some r
               | None => re_match items' s
               end
          else re_match items' s
      | [] => re_match items' s
      end
  | Plus cls :: items' => plus_loop cls (re_match items') s
  | Dollar :: items' =>
      if bool_decide (s = [] ∨ s = [10%N]) then re_match items' s else None
  end.

Definition not_space (c : N) : bool := negb (is_space c).

(** [https?://\S+] *)
Definition url_items : list re_item :=
  lits "http" ++ [OptLit 115%N] ++ lits "://" ++ [Plus not_space].

(** [re.compile(r"^https?://\S+$").match(new_link)] *)
Definition url_pattern_match (new_link : str) : bool :=
  bool_decide (is_Some (re_match (url_items ++ [Dollar]) new_link)).

(** [url_pattern.findall(content)[0]]: the leftmost match, [None] when
    [findall] is empty. *)
Fixpoint first_url (content : str) : option str :=
  match re_match url_items content with
  | Some rest => Some (take (length content - length rest)%nat content)
  | None =>
      match content with
      | [] => None
      | _ :: content' => first_url content'
      end
  end.

(** ** The [configs] table and the runtime configuration

    Python's [int] on a string is a builtin outside the repository: it is
    the parameter [int_of_str] below, [None] standing for ValueError. *)

Definition with_configs (db : Database) (cfg : Configs) : Database :=
  mkDatabase (users db) (sessions db) (engagements db)
             (seq_sessions db) (seq_engagements db) cfg.

(** [set_config]: INSERT ... ON CONFLICT(key) DO UPDATE SET value. *)
Definition set_config (db : Database) (key value : str) : Database :=
  with_configs db (<[key := value]> (configs db)).

(** [get_config]: SELECT value FROM configs WHERE key = ?. *)
Definition get_config (db : Database) (key : str) : option str :=
  configs db !! key.

(** [s.split(sep)] for a one-character separator. *)
Fixpoint split_on (sep : N) (s : str) : list str :=
  match s with
  | [] => [[]]
  | c :: s' =>
      if (c =? sep)%N then [] :: split_on sep s'
      else match split_on sep s' with
           | h :: t => (c :: h) :: t
           | [] => [[c]]
           end
  end.

(** [s.lstrip()], [s.rstrip()], [s.strip()]. *)
Fixpoint lstrip (s : str) : str :=
  match s with
  | c :: s' => if is_space c then lstrip s' else s
  | [] => []
  end.

Definition rstrip (s : str) : str := reverse (lstrip (reverse s)).

Definition strip (s : str) : str := rstrip (lstrip s).

(** [sep.join(l)]. *)
Fixpoint join (sep : str) (l : list str) : str :=
  match l with
  | [] => []
  | [x] => x
  | x :: l' => x ++ sep ++ join sep l'
  end.

Definition comma : N := 44.

Section config.
Variable int_of_str : str -> option Z.

(** The loop [try: ids.add(int(p)) except ValueError: continue]. *)
Definition add_ints (ids : gset Z) (parts : list str) : gset Z :=
  foldl (fun ids p => match int_of_str p with
                      | Some i => ids ∪ {[i]}
                      | None => ids
                      end) ids parts.

(** [get_config_int]. *)
Definition get_config_int (db : Database) (key : str) : option Z :=
  match get_config db key with
  | None => None
  | Some val => int_of_str val
  end.

(** [get_allowed_channel_ids]. *)
Definition get_allowed_channel_ids (db : Database) : option (gset Z) :=
  match get_config db (py "allowed_channel_ids") with
  | None => None
  | Some val =>
      if decide (val = []) then None
      else
        let parts :=
          strip <$> filter (fun p => strip p ≠ []) (split_on comma val) in
        let ids := add_ints ∅ parts in
        if decide (ids = ∅) then None else Some ids
  end.

(** [_parse_int_list] of bot.py, reading ALLOWED_CHANNEL_IDS. *)
Definition _parse_int_list (env_value : str) : gset Z :=
  add_ints ∅ (filter (fun part => part ≠ [])
                     (strip <$> split_on comma env_value)).
End config.

(** [set_allowed_channel_ids]. *)
Definition set_allowed_channel_ids (db : Database) (ids : option (gset Z))
  : Database :=
  match ids with
  | None => with_configs db (delete (py "allowed_channel_ids") (configs db))
  | Some s =>
      if decide (s = ∅)
      then with_configs db (delete (py "allowed_channel_ids") (configs db))
      else
        let csv := join [comma] (str_of_int <$> order_by Z.leb (elements s)) in
        set_config db (py "allowed_channel_ids") csv
  end.

(** ** The bot and its listeners *)

(** The attributes of [EngagementBot] the listeners and commands read. *)
Record Bot := mkBot {
  db : Database;
  allowed_channel_ids : option (gset Z);   (* None: all channels allowed *)
  log_channel_id : Z;
  report_channel_id : Z;
  bot_user_id : Z                          (* [bot.user.id] *)
}.

(** [self.checkmark_emoji]: U+2705. *)
Definition checkmark_emoji : str := [9989%N].

(** [allowed is not None and channel_id not in allowed] *)
Definition channel_blocked (bot : Bot) (channel_id : Z) : bool :=
  match allowed_channel_ids bot with
  | None => false
  | Some allowed => bool_decide (channel_id ∉ allowed)
  end.

Definition with_db (bot : Bot) (d : Database) : Bot :=
  mkBot d (allowed_channel_ids bot) (log_channel_id bot)
        (report_channel_id bot) (bot_user_id bot).

(** A [RawReactionActionEvent] together with what the platform answers
    while the listener runs. *)
Record ReactionEvent := mkReactionEvent {
  r_user_id : Z;
  r_channel_id : Z;
  r_message_id : Z;
  r_emoji : str;                        (* [str(payload.emoji)] *)
  r_channel : bool;                     (* [bot.get_channel] found it *)
  r_message_embeds : option bool;       (* [fetch_message]: None when it
                                           raises, else [bool(message.embeds)] *)
  r_guild_members : option (list Z);    (* [fetch_members]: None when it raises *)
  r_now : Z
}.

Inductive ReactionOutcome :=
  | ReactionIgnored        (* bot reaction, blocked channel, other emoji,
                              channel or message not fetched *)
  | OwnerNotFound          (* no active session carries the message id *)
  | SelfEngagement         (* "You cannot engage with your own content!" *)
  | AlreadyEngaged         (* "You have already engaged with this content!" *)
  | Recorded.              (* edge inserted, point awarded *)

(** The member scan: the first member whose active session carries
    [message_id]. *)
Fixpoint find_owner_session (d : Database) (guild_members : list Z)
    (message_id : Z) : option SessionDict :=
  match guild_members with
  | [] => None
  | user_id :: rest =>
      match get_active_session d user_id with
      | Some session =>
          if decide (d_message_id session = message_id) then Some session
          else find_owner_session d rest message_id
      | None => find_owner_session d rest message_id
      end
  end.

(** [on_raw_reaction_add], up to the last store access. The fetched
    message has the id of the payload. *)
Definition on_raw_reaction_add (bot : Bot) (payload : ReactionEvent)
  : Bot * ReactionOutcome :=
  if decide (r_user_id payload = bot_user_id bot) then (bot, ReactionIgnored)
  else if channel_blocked bot (r_channel_id payload) then (bot, ReactionIgnored)
  else if negb (bool_decide (r_emoji payload = checkmark_emoji))
  then (bot, ReactionIgnored)
  else if negb (r_channel payload) then (bot, ReactionIgnored)
  else
    match r_message_embeds payload with
    | None => (bot, ReactionIgnored)
    | Some embeds =>
        let lookup :=
          if embeds
          then match r_guild_members payload with
               | None => None                      (* except: return *)
               | Some guild_members =>
                   Some (find_owner_session (db bot) guild_members
                           (r_message_id payload))
               end
          else Some None in
        match lookup with
        | None => (bot, OwnerNotFound)
        | Some None => (bot, OwnerNotFound)
        | Some (Some content_owner_session) =>
            if decide (r_user_id payload = d_user_id content_owner_session)
            then (bot, SelfEngagement)
            else if decide (d_session_id content_owner_session = 0)
            then (bot, OwnerNotFound)
            else if has_engaged (db bot) (r_user_id payload)
                      (d_session_id content_owner_session)
            then (bot, AlreadyEngaged)
            else
              let '(d1, added) :=
                add_engagement (db bot) (r_user_id payload)
                  (d_session_id content_owner_session) (r_now payload) in
              if added
              then (with_db bot (add_point d1 (r_user_id payload)), Recorded)
              else (with_db bot d1, AlreadyEngaged)
        end
    end.

(** A posted message together with what the platform answers. *)
Record MessageEvent := mkMessageEvent {
  m_author_id : Z;
  m_author_bot : bool;
  m_display_name : str;
  m_channel_id : Z;
  m_content : str;
  m_formatted_msg : option Z;   (* id of the embed message; None when
                                   [channel.send] raises *)
  m_user_now : Z;
  m_session_now : Z
}.

Inductive MessageOutcome :=
  | MessageIgnored
  | NoLink                 (* "Please post only links in this channel!" *)
  | DuplicateSubmission    (* "You can only post 1 link per session!" *)
  | SendFailed             (* the outer [except] after [add_user] *)
  | Submitted (session_id : Z).

(** [on_message], up to the last store access. *)
Definition on_message (bot : Bot) (message : MessageEvent)
  : Bot * MessageOutcome :=
  if m_author_bot message then (bot, MessageIgnored)
  else if channel_blocked bot (m_channel_id message) then (bot, MessageIgnored)
  else
    match first_url (m_content message) with
    | None => (bot, NoLink)
    | Some link =>
        match get_active_session (db bot) (m_author_id message) with
        | Some _ => (bot, DuplicateSubmission)
        | None =>
            let d1 := add_user (db bot) (m_author_id message)
                        (m_display_name message) (m_user_now message) in
            match m_formatted_msg message with
            | None => (with_db bot d1, SendFailed)
            | Some formatted_msg_id =>
                let '(d2, sid) :=
                  add_session d1 (m_author_id message) link formatted_msg_id
                    (m_channel_id message) (m_session_now message) in
                (with_db bot d2, Submitted sid)
            end
        end
    end.

(** ** The [change_link] command *)

Inductive api := ApiOk | ApiNotFound | ApiError.

Record ChangeLink := mkChangeLink {
  c_user_id : Z;
  c_new_link : str;
  c_channel : bool;        (* [bot.get_channel(channel_id)] found it *)
  c_fetch : api;           (* [channel.fetch_message] *)
  c_edit : api;            (* [message.edit] *)
  c_log_channel : bool;    (* [bot.get_channel(log_channel_id)] found it *)
  c_log_send : api         (* [log_channel.send] *)
}.

Inductive ChangeLinkOutcome :=
  | InvalidLink            (* "Invalid URL format. ..." *)
  | NoActiveSession        (* "You don't have an active session. ..." *)
  | ChannelNotFound        (* "Could not locate the original channel ..." *)
  | MessageNotFound        (* except discord.NotFound *)
  | Raised                 (* any other exception leaves the command *)
  | LinkUpdated (log : option (str * str)).
                           (* the Old Link / New Link fields of the log
                              embed, when a log channel exists; the
                              command itself returns nothing *)

Definition set_link (new_link : str) (s : Session.t) : Session.t :=
  Session.mk (Session.session_id s) (Session.user_id s) new_link
             (Session.message_id s) (Session.submitted_at s)
             (Session.engaged s) (Session.channel_id s).

(** UPDATE sessions SET link = ? WHERE session_id = ?. *)
Definition update_link (d : Database) (new_link : str) (session_id : Z)
  : Database :=
  let upd s :=
    if decide (Session.session_id s = session_id) then set_link new_link s
    else s in
  mkDatabase (users d) (upd <$> sessions d) (engagements d)
             (seq_sessions d) (seq_engagements d) (configs d).

(** [session.get("channel_id")] is truthy. *)
Definition truthy (o : option Z) : bool :=
  match o with
  | Some z => negb (z =? 0)
  | None => false
  end.

Definition change_link (bot : Bot) (cmd : ChangeLink)
  : Bot * ChangeLinkOutcome :=
  if negb (url_pattern_match (c_new_link cmd)) then (bot, InvalidLink)
  else
    match get_active_session (db bot) (c_user_id cmd) with
    | None => (bot, NoActiveSession)
    | Some session =>
        if negb (truthy (d_channel_id session) && c_channel cmd)
        then (bot, ChannelNotFound)
        else
          match c_fetch cmd, c_edit cmd with
          | ApiNotFound, _ => (bot, MessageNotFound)
          | ApiError, _ => (bot, Raised)
          | ApiOk, ApiNotFound => (bot, MessageNotFound)
          | ApiOk, ApiError => (bot, Raised)
          | ApiOk, ApiOk =>
              let updated log :=
                (with_db bot
                   (update_link (db bot) (c_new_link cmd) (d_session_id session)),
                 LinkUpdated log) in
              if c_log_channel cmd
              then match c_log_send cmd with
                   | ApiOk => updated (Some (d_link session, c_new_link cmd))
                   | ApiNotFound => (bot, MessageNotFound)
                   | ApiError => (bot, Raised)
                   end
              else updated None
          end
    end.

(** ** The admin commands that change state

    Each of them first awaits [interaction.response.defer]; [deferred]
    says whether that call went through. When it raises, the command ends
    there, before it reads or writes anything. *)

(** [ConfirmResetView.confirm_button], up to the store call. *)
Definition confirm_button (bot : Bot) (administrator deferred : bool) : Bot :=
  if negb administrator then bot
  else if negb deferred then bot
  else with_db bot (reset_all_sessions (db bot)).

(** [set_yap_channel]: the set is written to the store, then to the bot
    attribute. *)
Definition set_yap_channel (bot : Bot) (channel_id : Z) (add deferred : bool)
  : Bot :=
  if negb deferred then bot
  else
    let current := allowed_channel_ids bot in
    let new_set : gset Z :=
      if add then default ∅ current ∪ {[channel_id]} else {[channel_id]} in
    mkBot (set_allowed_channel_ids (db bot) (Some new_set)) (Some new_set)
          (log_channel_id bot) (report_channel_id bot) (bot_user_id bot).

(** [set_log]; [channel_id] is [ch.id]. *)
Definition set_log (bot : Bot) (channel_id : Z) (deferred : bool) : Bot :=
  if negb deferred then bot
  else
    mkBot (set_config (db bot) (py "log_channel_id") (str_of_int channel_id))
          (allowed_channel_ids bot) channel_id (report_channel_id bot)
          (bot_user_id bot).

(** [set_report]. *)
Definition set_report (bot : Bot) (channel_id : Z) (deferred : bool) : Bot :=
  if negb deferred then bot
  else
    mkBot (set_config (db bot) (py "report_channel_id") (str_of_int channel_id))
          (allowed_channel_ids bot) (log_channel_id bot) channel_id
          (bot_user_id bot).

(** ** Start-up *)

Section start_up.
Variable int_of_str : str -> option Z.

(** [setup_hook], on a bot whose attributes come from the environment
    and whose store is the connected database file: the overrides read
    from the store. A stored channel id of 0 is falsy and ignored. *)
Definition setup_hook (bot : Bot) : Bot :=
  let allowed :=
    match get_allowed_channel_ids int_of_str (db bot) with
    | Some cfg_allowed => Some cfg_allowed
    | None => allowed_channel_ids bot
    end in
  let log :=
    match get_config_int int_of_str (db bot) (py "log_channel_id") with
    | Some cfg_log => if decide (cfg_log = 0) then log_channel_id bot else cfg_log
    | None => log_channel_id bot
    end in
  let report :=
    match get_config_int int_of_str (db bot) (py "report_channel_id") with
    | Some cfg_report =>
        if decide (cfg_report = 0) then report_channel_id bot else cfg_report
    | None => report_channel_id bot
    end in
  mkBot (db bot) allowed log report (bot_user_id bot).
End start_up.

(** ** Runs of the bot

    A run handles one event after the other, each listener or command
    finishing before the next one starts. The listeners are coroutines
    that await the store and the platform between their steps; what is
    stated about runs is stated for this sequential handling. *)

Inductive Event :=
  | MessagePosted (message : MessageEvent)
  | ReactionAdded (payload : ReactionEvent)
  | ChangeLinkCmd (cmd : ChangeLink)
  | ConfirmReset (administrator deferred : bool)
  | SetYapChannel (channel_id : Z) (add deferred : bool)
  | SetLog (channel_id : Z) (deferred : bool)
  | SetReport (channel_id : Z) (deferred : bool).

Definition handle (bot : Bot) (e : Event) : Bot :=
  match e with
  | MessagePosted message => (on_message bot message).1
  | ReactionAdded payload => (on_raw_reaction_add bot payload).1
  | ChangeLinkCmd cmd => (change_link bot cmd).1
  | ConfirmReset administrator deferred =>
      confirm_button bot administrator deferred
  | SetYapChannel channel_id add deferred =>
      set_yap_channel bot channel_id add deferred
  | SetLog channel_id deferred => set_log bot channel_id deferred
  | SetReport channel_id deferred => set_report bot channel_id deferred
  end.

Definition run (bot : Bot) (events : list Event) : Bot :=
  foldl handle bot events.

(** Calls on the store itself, for properties of every call sequence. *)
Inductive StoreOp :=
  | AddUser (user_id : Z) (username : str) (now : Z)
  | AddSession (user_id : Z) (link : str) (message_id channel_id now : Z)
  | MarkEngaged (user_id : Z)
  | AddEngagement (engager_id target_session_id now : Z)
  | AddPoint (user_id : Z)
  | UpdateLink (new_link : str) (session_id : Z)
  | ResetAllSessions.

Definition apply_op (d : Database) (op : StoreOp) : Database :=
  match op with
  | AddUser u n t => add_user d u n t
  | AddSession u l m c t => (add_session d u l m c t).1
  | MarkEngaged u => mark_engaged d u
  | AddEngagement e s t => (add_engagement d e s t).1
  | AddPoint u => add_point d u
  | UpdateLink l s => update_link d l s
  | ResetAllSessions => reset_all_sessions d
  end.

Definition apply_ops (d : Database) (ops : list StoreOp) : Database :=
  foldl apply_op d ops.

(** ** Notions used in the statements *)

(** SELECT total_points FROM users WHERE user_id = ?; [None] when the
    user has no row. *)
Definition total_points_of (d : Database) (user_id : Z) : option Z :=
  User.total_points <$>
  head (filter (fun u => User.user_id u = user_id) (users d)).

(** The points a user shows on the leaderboard; a user without a row
    shows none, counted as 0. *)
Definition points (d : Database) (user_id : Z) : Z :=
  default 0 (total_points_of d user_id).

Definition registered (d : Database) (user_id : Z) : Prop :=
  user_id ∈ User.user_id <$> users d.

(** [d'] has the tables and counters of [d]; the stored configuration
    may differ. *)
Definition same_tables (d d' : Database) : Prop :=
  users d' = users d ∧ sessions d' = sessions d ∧
  engagements d' = engagements d ∧
  seq_sessions d' = seq_sessions d ∧ seq_engagements d' = seq_engagements d.


(** The pair an engagement row stands for. *)
Definition edge_pair (g : Engagement.t) : Z * Z :=
  (Engagement.engager_id g, Engagement.target_session_id g).

Definition edge (d : Database) (engager_id session_id : Z) : Prop :=
  (engager_id, session_id) ∈ edge_pair <$> engagements d.

(** At most one engagement row per (engager, target session). *)
Definition unique_edges (d : Database) : Prop :=
  NoDup (edge_pair <$> engagements d).

(** PRIMARY KEY of [sessions]. *)
Definition sessions_pk (d : Database) : Prop :=
  NoDup (Session.session_id <$> sessions d).

(** [user_id] owns at least one session row. *)
Definition has_session (d : Database) (user_id : Z) : Prop :=
  user_id ∈ Session.user_id <$> sessions d.

(** [session_id] is the greatest session id among the rows of [user_id]. *)
Definition is_latest (d : Database) (user_id session_id : Z) : Prop :=
  (∃ s, s ∈ sessions d ∧ Session.user_id s = user_id ∧
        Session.session_id s = session_id) ∧
  ∀ s, s ∈ sessions d → Session.user_id s = user_id →
       Session.session_id s <= session_id.

(** No edge goes from a user to a session that user owns. *)
Definition no_self_edges (d : Database) : Prop :=
  ∀ g s, g ∈ engagements d → s ∈ sessions d →
         Session.session_id s = Engagement.target_session_id g →
         Session.user_id s ≠ Engagement.engager_id g.

(** What the listeners maintain: session keys are distinct and were
    handed out by the counter, and every edge points at a stored session
    of another user. *)
Definition pipeline_inv (d : Database) : Prop :=
  sessions_pk d ∧
  Forall (fun s => Session.session_id s <= seq_sessions d) (sessions d) ∧
  Forall (fun g => ∃ s, s ∈ sessions d ∧
                     Session.session_id s = Engagement.target_session_id g ∧
                     Session.user_id s ≠ Engagement.engager_id g)
         (engagements d).

(** The reaction passes every filter of [on_raw_reaction_add] and the
    member scan resolves it to [session], owned by somebody else. *)
Definition resolves (bot : Bot) (payload : ReactionEvent)
    (session : SessionDict) : Prop :=
  r_user_id payload ≠ bot_user_id bot ∧
  channel_blocked bot (r_channel_id payload) = false ∧
  r_emoji payload = checkmark_emoji ∧
  r_channel payload = true ∧
  r_message_embeds payload = Some true ∧
  (∃ guild_members,
      r_guild_members payload = Some guild_members ∧
      find_owner_session (db bot) guild_members (r_message_id payload)
      = Some session) ∧
  r_user_id payload ≠ d_user_id session ∧
  d_session_id session ≠ 0.

(** The store after a recorded engagement. *)
Definition record (d : Database) (engager_id session_id now : Z) : Database :=
  add_point (add_engagement d engager_id session_id now).1 engager_id.

(** The same reaction delivered again at time [now]. *)
Definition redelivered (payload : ReactionEvent) (now : Z) : ReactionEvent :=
  mkReactionEvent (r_user_id payload) (r_channel_id payload)
    (r_message_id payload) (r_emoji payload) (r_channel payload)
    (r_message_embeds payload) (r_guild_members payload) now.

(** [n] is the number of distinct users satisfying [P]. *)
Definition counts (P : Z -> Prop) (n : nat) : Prop :=
  ∃ l : list Z, NoDup l ∧ (∀ u, u ∈ l ↔ P u) ∧ length l = n.

(** A user is non-engaged when they have a latest session and some other
    user's latest session carries no edge from them. *)
Definition non_engaged (d : Database) (user_id : Z) : Prop :=
  has_session d user_id ∧
  ∃ other_id sid, other_id ≠ user_id ∧ is_latest d other_id sid ∧
                  ¬ edge d user_id sid.

(** *** Well-formed links, after the specification

    The specification asks for "a well-formed absolute URI (scheme
    http/https)". Read with RFC 3986: the scheme is http or https in any
    letter case, "://" follows, the rest is not empty, every character is
    an unreserved or reserved URI character or starts a percent-encoded
    octet. This definition follows the specification, not the code. *)
Definition is_alpha (c : N) : bool :=
  ((65 <=? c) && (c <=? 90) || (97 <=? c) && (c <=? 122))%N.
Definition is_digit (c : N) : bool := ((48 <=? c) && (c <=? 57))%N.
Definition is_hex (c : N) : bool :=
  (is_digit c || (65 <=? c) && (c <=? 70) || (97 <=? c) && (c <=? 102))%N.

Definition uri_char (c : N) : bool :=
  is_alpha c || is_digit c ||
  bool_decide (c ∈ py "-._~:/?#[]@!$&'()*+,;=").

Fixpoint uri_chars (s : str) : bool :=
  match s with
  | [] => true
  | c :: s' =>
      if (c =? 37)%N
      then match s' with
           | h1 :: h2 :: _ => is_hex h1 && is_hex h2 && uri_chars s'
           | _ => false
           end
      else uri_char c && uri_chars s'
  end.

Definition lower (c : N) : N :=
  if ((65 <=? c) && (c <=? 90))%N then (c + 32)%N else c.

Definition strip_prefix (p s : str) : option str :=
  if bool_decide (take (length p) (lower <$> s) = p)
  then Some (drop (length p) s) else None.

Definition well_formed_http_uri (s : str) : bool :=
  match strip_prefix (py "http://") s, strip_prefix (py "https://") s with
  | Some rest, _ | None, Some rest =>
      negb (bool_decide (rest = [])) && uri_chars rest
  | None, None => false
  end.

(** What [^https?://\S+$] accepts, spelled out: "http://" or "https://",
    then one or more characters that are not white space, then at most
    one final newline. *)
Definition url_shaped (s : str) : Prop :=
  ∃ scheme body tail,
    s = scheme ++ body ++ tail ∧
    (scheme = py "http://" ∨ scheme = py "https://") ∧
    body ≠ [] ∧ Forall (fun c => is_space c = false) body ∧
    (tail = [] ∨ tail = [10%N]).

(** ** Sample runs *)

Definition sample_bot : Bot := mkBot empty_db None 900 901 1000.

Definition post (author_id formatted_msg now : Z) (content : string) : Event :=
  MessagePosted
    (mkMessageEvent author_id false (py "creator") 7 (py content)
                    (Some formatted_msg) now now).

Definition react_at (user_id message_id now : Z) : ReactionEvent :=
  mkReactionEvent user_id 7 message_id checkmark_emoji true (Some true)
                  (Some [1; 2; 3; 4]) now.

Definition react (user_id message_id now : Z) : Event :=
  ReactionAdded (react_at user_id message_id now).

(** A, B and C (users 1, 2, 3) each submit; B and C react on A's post. *)
Definition three_creators : Bot :=
  run sample_bot
      [post 1 101 10 "my video http://x/1"; post 2 102 11 "http://x/b";
       post 3 103 12 "http://x/c"; react 2 101 13; react 3 101 14].

(** Only user 1 has submitted. *)
Definition one_creator : Bot :=
  run sample_bot [post 1 101 10 "http://x/1"].

(** Two session rows of one user, the later key with the earlier
    timestamp: the wall clock was set back between the two INSERTs. *)
Definition clock_stepped_back : Database :=
  apply_ops empty_db
    [AddUser 1 (py "creator") 20; AddSession 1 (py "http://x/1") 101 7 20;
     AddSession 1 (py "http://x/2") 102 7 10].

(** Two session rows of one user written within the same second. *)
Definition same_second : Database :=
  apply_ops empty_db
    [AddUser 1 (py "creator") 20; AddSession 1 (py "http://x/1") 101 7 20;
     AddSession 1 (py "http://x/2") 102 7 20].

(** Two session rows of one user, written twenty seconds apart. *)
Definition two_rounds : Database :=
  apply_ops empty_db
    [AddUser 1 (py "creator") 10; AddSession 1 (py "http://x/1") 101 7 10;
     AddSession 1 (py "http://x/2") 102 7 30].

Definition edit_cmd (user_id : Z) (new_link : str) : ChangeLink :=
  mkChangeLink user_id new_link true ApiOk ApiOk true ApiOk.



(** A, B and C submit; A and B react to each other's post. *)
Definition mutual : Bot :=
  run sample_bot
      [post 1 101 10 "http://x/a"; post 2 102 11 "http://x/b";
       post 3 103 12 "http://x/c"; react 1 102 13; react 2 101 14].

(** ** Further notions *)

(** Every user owns at most one session row. *)
Definition one_session_each (d : Database) : Prop :=
  NoDup (Session.user_id <$> sessions d).

(** Session keys were handed out by the counter. *)
Definition sessions_below_seq (d : Database) : Prop :=
  Forall (fun s => Session.session_id s <= seq_sessions d) (sessions d).

(** PRIMARY KEY of [users]. *)
Definition users_pk (d : Database) : Prop :=
  NoDup (User.user_id <$> users d).

(** The rows of [users] stand in ascending key order. *)
Definition users_in_key_order (d : Database) : Prop :=
  StronglySorted Z.lt (User.user_id <$> users d).

(** A message of a human author in channel 7 whose embed is sent. *)
Definition message_of (author_id formatted_msg now : Z) (content : string)
  : MessageEvent :=
  mkMessageEvent author_id false (py "creator") 7 (py content)
                 (Some formatted_msg) now now.

(** An event that empties [sessions]: a reset confirmed by an
    administrator whose interaction was deferred. *)
Definition is_reset (e : Event) : bool :=
  match e with
  | ConfirmReset administrator deferred => administrator && deferred
  | _ => false
  end.

(** The reaction events of a run that [user_id] sent. *)
Definition is_reaction_by (user_id : Z) (e : Event) : bool :=
  match e with
  | ReactionAdded payload => bool_decide (r_user_id payload = user_id)
  | _ => false
  end.

Definition reactions_by (user_id : Z) (events : list Event) : nat :=
  length (filter (fun e => is_reaction_by user_id e = true) events).




(** ** Sample configuration *)

(** A reader of plain decimal numerals, for the examples: an optional
    minus sign and ASCII digits. *)
Fixpoint read_digits (acc : Z) (s : str) : option Z :=
  match s with
  | [] => Some acc
  | c :: s' =>
      if is_digit c then read_digits (10 * acc + (Z.of_N c - 48)) s'
      else None
  end.

Definition read_decimal (s : str) : option Z :=
  match s with
  | [] => None
  | 45%N :: c :: s' => Z.opp <$> read_digits 0 (c :: s')
  | _ => read_digits 0 s
  end.

(** A store in which the allowed channels 7 and 12 were persisted. *)
Definition sample_configs : Database :=
  set_allowed_channel_ids empty_db (Some ({[12; 7]} : gset Z)).

(** * Properties *)

(** ** Sorting, limits and aggregates *)

Section order_by.
Context {A : Type} (le : A -> A -> bool).

Lemma insert_by_perm x l : insert_by le x l ≡ₚ x :: l.
Proof.
  induction l as [|y l IH]; simpl; [done|].
  destruct (le x y); [done|]. rewrite IH. apply Permutation_swap.
Qed.

Lemma order_by_cons x l :
  order_by le (x :: l) = insert_by le x (order_by le l).
Proof. reflexivity. Qed.

Lemma order_by_perm l : order_by le l ≡ₚ l.
Proof.
  induction l as [|x l IH]; [done|].
  by rewrite order_by_cons, insert_by_perm, IH.
Qed.

Lemma elem_of_order_by x l : x ∈ order_by le l ↔ x ∈ l.
Proof. by rewrite order_by_perm. Qed.


Lemma order_by_NoDup l : NoDup (order_by le l) ↔ NoDup l.
Proof. by rewrite order_by_perm. Qed.

Lemma head_insert_by x l :
  head (insert_by le x l) =
  match head l with
  | None => Some x
  | Some y => if le x y then Some x else Some y
  end.
Proof. destruct l as [|y l]; simpl; [done|]. by destruct (le x y). Qed.

Lemma order_by_nil l : order_by le l = [] ↔ l = [].
Proof.
  split; [|by intros ->].
  intros H. apply Permutation_nil_r. by rewrite <- H, order_by_perm.
Qed.
End order_by.



(** The first row of a descending sort carries a greatest key. *)
Lemma head_order_by_desc {A} (key : A -> Z) l m :
  head (order_by (desc key) l) = Some m →
  m ∈ l ∧ ∀ y, y ∈ l → key y <= key m.
Proof.
  revert m. induction l as [|x l IH]; intros m; [done|].
  rewrite order_by_cons, head_insert_by.
  destruct (head (order_by (desc key) l)) as [y|] eqn:Hy.
  - destruct (IH y eq_refl) as [Hin Hmax]. unfold desc.
    destruct (Z.leb_spec (key y) (key x)); intros [= <-].
    + split; [left|]. intros z [->|Hz]%elem_of_cons; [lia|].
      specialize (Hmax z Hz). lia.
    + split; [by right|]. intros z [->|Hz]%elem_of_cons; [lia|]. by apply Hmax.
  - intros [= <-]. apply head_None, order_by_nil in Hy as ->.
    split; [left|]. intros z [->|Hz]%elem_of_cons; [lia|]. inversion Hz.
Qed.

Lemma limit_1_head {A} (l : list A) : head (limit 1 l) = head l.
Proof. by destruct l. Qed.

Lemma foldl_max_spec l x :
  (x ∈ x :: l → foldl Z.max x l ∈ x :: l) ∧ ∀ y, y ∈ x :: l → y <= foldl Z.max x l.
Proof.
  revert x. induction l as [|z l IH]; intros x; simpl.
  - split; [done|]. intros y ->%list_elem_of_singleton. lia.
  - destruct (IH (Z.max x z)) as [Hin Hle]. split.
    + intros _. specialize (Hin ltac:(left)).
      apply elem_of_cons in Hin as [Hm|Hin]; [|by do 2 right].
      rewrite Hm. destruct (Z.max_spec x z) as [[_ ->]|[_ ->]];
        [right; left|left].
    + intros y Hy. assert (y <= Z.max x z ∨ y ∈ l) as [?|?].
      { apply elem_of_cons in Hy as [->|Hy]; [left; lia|].
        apply elem_of_cons in Hy as [->|Hy]; [left; lia|by right]. }
      * etrans; [done|]. apply Hle. left.
      * apply Hle. by right.
Qed.

Lemma MAX_spec l m :
  MAX l = Some m ↔ m ∈ l ∧ ∀ y, y ∈ l → y <= m.
Proof.
  destruct l as [|x l]; simpl.
  - split; [done|]. intros [H _]. inversion H.
  - destruct (foldl_max_spec l x) as [Hin Hle]. split.
    + intros [= <-]. split; [apply Hin; left|done].
    + intros [Hm Hmax]. f_equal. apply Z.le_antisymm.
      * apply Hmax, Hin. left.
      * by apply Hle.
Qed.

(** ** Reading the [users] and [sessions] tables *)

Lemma db_eta d :
  mkDatabase (users d) (sessions d) (engagements d)
             (seq_sessions d) (seq_engagements d) (configs d) = d.
Proof. by destruct d. Qed.

Lemma bot_eta bot : with_db bot (db bot) = bot.
Proof. by destruct bot. Qed.

(** The commands that store configuration leave the three tables and
    their counters alone. *)
Lemma set_allowed_channel_ids_tables d ids :
  same_tables d (set_allowed_channel_ids d ids).
Proof.
  unfold set_allowed_channel_ids. destruct ids as [s|]; [|done].
  by case_decide.
Qed.

Lemma set_yap_channel_tables bot channel_id add deferred :
  same_tables (db bot) (db (set_yap_channel bot channel_id add deferred)).
Proof.
  unfold set_yap_channel. destruct deferred; [|done].
  apply set_allowed_channel_ids_tables.
Qed.

Lemma set_log_tables bot channel_id deferred :
  same_tables (db bot) (db (set_log bot channel_id deferred)).
Proof. by destruct deferred. Qed.

Lemma set_report_tables bot channel_id deferred :
  same_tables (db bot) (db (set_report bot channel_id deferred)).
Proof. by destruct deferred. Qed.

(** An event that is no listener, link edit or reset stores
    configuration. *)
Lemma handle_config_tables bot e :
  match e with
  | SetYapChannel _ _ _ | SetLog _ _ | SetReport _ _ =>
      same_tables (db bot) (db (handle bot e))
  | _ => True
  end.
Proof.
  destruct e; try done.
  - apply set_yap_channel_tables.
  - apply set_log_tables.
  - apply set_report_tables.
Qed.

Lemma fmap_id_on {A} (f : A -> A) (l : list A) :
  (∀ x, x ∈ l → f x = x) → f <$> l = l.
Proof.
  induction l as [|x l IH]; intros H; csimpl; [done|].
  rewrite H by left. f_equal. apply IH. intros y Hy. apply H. by right.
Qed.

Lemma filter_fmap_stable {A} (P : A -> Prop) `{∀ x, Decision (P x)}
    (f : A -> A) (l : list A) :
  (∀ x, P (f x) ↔ P x) → filter P (f <$> l) = f <$> filter P l.
Proof.
  intros Hf. induction l as [|x l IH]; [done|].
  rewrite fmap_cons, !filter_cons.
  destruct (decide (P (f x))) as [HP|HP], (decide (P x)) as [HP'|HP'];
    rewrite ?fmap_cons, IH; try done.
  - destruct HP'. by apply Hf.
  - destruct HP. by apply Hf.
Qed.

Lemma add_point_user_ids d user_id :
  User.user_id <$> users (add_point d user_id) = User.user_id <$> users d.
Proof.
  simpl. rewrite <- list_fmap_compose. apply list_fmap_ext.
  intros _ u _. simpl. by case_decide.
Qed.

Lemma has_session_filter d user_id :
  has_session d user_id ↔
  filter (fun s => Session.user_id s = user_id) (sessions d) ≠ [].
Proof.
  unfold has_session. rewrite list_elem_of_fmap. split.
  - intros (s & -> & Hs) Hnil.
    assert (s ∈ filter (fun s' => Session.user_id s' = Session.user_id s) (sessions d))
      as Hin by (by apply list_elem_of_filter).
    rewrite Hnil in Hin. inversion Hin.
  - intros Hne.
    destruct (filter _ _) as [|s l] eqn:Hf; [done|].
    assert (s ∈ s :: l) as Hin by left. rewrite <- Hf in Hin.
    apply list_elem_of_filter in Hin as [? ?]. by exists s.
Qed.

(** The row behind the result of [get_active_session]. *)
Lemma get_active_session_row d user_id session :
  get_active_session d user_id = Some session →
  ∃ row, row ∈ sessions d ∧ session = session_dict row ∧
         Session.user_id row = user_id ∧
         ∀ s, s ∈ sessions d → Session.user_id s = user_id →
              Session.submitted_at s <= Session.submitted_at row.
Proof.
  unfold get_active_session. rewrite limit_1_head.
  destruct (head _) as [row|] eqn:Hhead; [|done]. intros [= <-].
  apply head_order_by_desc in Hhead as [Hin Hmax].
  apply list_elem_of_filter in Hin as [Hu Hin].
  exists row. repeat split; [done..|].
  intros s Hs Hsu. apply Hmax. by apply list_elem_of_filter.
Qed.

Lemma get_active_session_None d user_id :
  get_active_session d user_id = None ↔ ¬ has_session d user_id.
Proof.
  unfold get_active_session. rewrite limit_1_head, has_session_filter.
  rewrite fmap_None, head_None, order_by_nil. split; [by intros ->; auto|].
  intros H.
  destruct (filter (fun s => Session.user_id s = user_id) (sessions d));
    [done|by destruct H].
Qed.

(** ** C2: the active session *)

(** C2, as the code has it. [get_active_session] returns nothing exactly
    when the user owns no session row; otherwise it returns one of the
    user's rows with the greatest [submitted_at]. That row is the one with
    the greatest [session_id] whenever the user's timestamps grow strictly
    with the session ids. *)
Theorem get_active_session_latest_timestamp d user_id :
  match get_active_session d user_id with
  | None => ¬ has_session d user_id
  | Some session =>
      ∃ row, row ∈ sessions d ∧ session = session_dict row ∧
        Session.user_id row = user_id ∧
        (∀ s, s ∈ sessions d → Session.user_id s = user_id →
              Session.submitted_at s <= Session.submitted_at row) ∧
        ((∀ s s', s ∈ sessions d → s' ∈ sessions d →
             Session.user_id s = user_id → Session.user_id s' = user_id →
             Session.session_id s < Session.session_id s' →
             Session.submitted_at s < Session.submitted_at s') →
         is_latest d user_id (d_session_id session))
  end.
Proof.
  destruct (get_active_session d user_id) as [session|] eqn:Hget.
  - destruct (get_active_session_row _ _ _ Hget) as (row & Hin & -> & Hu & Hmax).
    exists row. repeat split; [done..| |].
    + by exists row.
    + intros s Hs Hsu. simpl.
      destruct (Z.le_gt_cases (Session.session_id s) (Session.session_id row))
        as [|Hlt]; [done|].
      specialize (H row s Hin Hs Hu Hsu ltac:(lia)).
      specialize (Hmax s Hs Hsu). lia.
  - by apply get_active_session_None.
Qed.

(** C2 as stated fails: with two rows of one user where the later key
    carries the earlier timestamp, the row returned is session 1 although
    session 2 has the greatest id. *)
Lemma get_active_session_not_max_id :
  d_session_id <$> get_active_session clock_stepped_back 1 = Some 1 ∧
  is_latest clock_stepped_back 1 2 ∧
  get_latest_sessions_map clock_stepped_back !! 1 = Some 2.
Proof.
  split; [reflexivity|]. split; [|reflexivity]. split.
  - eexists. split; [right; left|]. done.
  - intros s Hs _. vm_compute in Hs.
    repeat (apply elem_of_cons in Hs as [->|Hs]; [simpl; lia|]). inversion Hs.
Qed.

(** The same happens without any step of the clock when both rows are
    written within one second: the sort keeps rows with equal timestamps
    in scan order, so the older row comes first. *)
Example get_active_session_same_second :
  d_session_id <$> get_active_session same_second 1 = Some 1 ∧
  get_latest_sessions_map same_second !! 1 = Some 2.
Proof. split; reflexivity. Qed.

(** With timestamps that grow with the keys the two notions agree: the
    second session of user 1 is the active one. *)
Lemma get_active_session_latest_timestamp_witness :
  d_session_id <$> get_active_session two_rounds 1 = Some 2 ∧
  is_latest two_rounds 1 2.
Proof.
  pose proof (get_active_session_latest_timestamp two_rounds 1) as H.
  change (get_active_session two_rounds 1) with
    (Some (session_dict
             (Session.mk 2 1 (py "http://x/2") 102 30 false (Some 7)))) in H.
  destruct H as (row & Hin & Heq & _ & _ & Hlatest).
  split; [reflexivity|]. apply Hlatest.
  intros s s' Hs Hs' _ _. vm_compute in Hs, Hs'.
  repeat (apply elem_of_cons in Hs as [->|Hs]);
    repeat (apply elem_of_cons in Hs' as [->|Hs']);
    try (by inversion Hs); try (by inversion Hs'); simpl; lia.
Defined.

(** ** C4: reset *)

(** C4. [reset_all_sessions] empties [sessions] and [engagements] and
    leaves [users] as it was: the latest-session map is empty afterwards,
    every user's [total_points] and the leaderboard are unchanged, and so
    is the stored configuration. The admin reset is this store call when
    an administrator confirms and the interaction is deferred; otherwise
    the store is not touched. *)
Theorem reset_all_sessions_frame d :
  sessions (reset_all_sessions d) = [] ∧
  engagements (reset_all_sessions d) = [] ∧
  users (reset_all_sessions d) = users d ∧
  get_latest_sessions_map (reset_all_sessions d) = ∅ ∧
  (∀ u, get_active_session (reset_all_sessions d) u = None) ∧
  (∀ u, total_points_of (reset_all_sessions d) u = total_points_of d u) ∧
  (∀ lim, get_leaderboard (reset_all_sessions d) lim = get_leaderboard d lim) ∧
  configs (reset_all_sessions d) = configs d ∧
  (∀ bot administrator deferred, db bot = d →
     db (confirm_button bot administrator deferred) =
     if administrator && deferred then reset_all_sessions d else d).
Proof.
  repeat split; try reflexivity.
  intros bot [] [] <-; reflexivity.
Qed.

(** ** C7: reactions that are filtered out *)

(** C7. A reaction whose emoji is not the check mark, or whose channel is
    outside a configured allowed set, leaves the bot, and so every edge
    and every point total, as it was. *)
Theorem reaction_filtered_out bot payload :
  r_emoji payload ≠ checkmark_emoji ∨
  (∃ allowed, allowed_channel_ids bot = Some allowed ∧
              r_channel_id payload ∉ allowed) →
  on_raw_reaction_add bot payload = (bot, ReactionIgnored).
Proof.
  intros H. unfold on_raw_reaction_add.
  case_decide; [done|].
  destruct (channel_blocked bot (r_channel_id payload)) eqn:Hb; [done|].
  destruct H as [Hemoji|(allowed & Hallowed & Hnotin)].
  - by rewrite bool_decide_eq_false_2.
  - unfold channel_blocked in Hb. rewrite Hallowed in Hb.
    by rewrite bool_decide_eq_true_2 in Hb.
Qed.

Lemma reaction_filtered_out_witness :
  on_raw_reaction_add three_creators
    (mkReactionEvent 3 7 102 (py "x") true (Some true) (Some [1; 2; 3]) 20)
  = (three_creators, ReactionIgnored).
Proof. apply reaction_filtered_out. left. by vm_compute. Defined.

(** ** C10: points of an unregistered user *)

(** [add_point] adds one to the total of [user_id] when that user has a
    row, and touches no other total. *)
Lemma add_point_points d user_id v :
  total_points_of (add_point d user_id) v =
  (fun p => if decide (v = user_id) then p + 1 else p) <$> total_points_of d v.
Proof.
  unfold total_points_of. cbn [users add_point].
  rewrite filter_fmap_stable.
  2:{ intros x. by case_decide. }
  destruct (filter _ (users d)) as [|x l] eqn:Hf; [done|].
  assert (x ∈ x :: l) as Hin by left. rewrite <- Hf in Hin.
  apply list_elem_of_filter in Hin as [Hx _].
  simpl. rewrite Hx. by repeat case_decide.
Qed.

Lemma total_points_of_registered d v p :
  total_points_of d v = Some p → registered d v.
Proof.
  unfold total_points_of, registered.
  destruct (filter _ (users d)) as [|x l] eqn:Hf; [done|]. intros _.
  assert (x ∈ x :: l) as Hin by left. rewrite <- Hf in Hin.
  apply list_elem_of_filter in Hin as [<- Hin]. by apply list_elem_of_fmap_2.
Qed.

(** C10. [add_point] for a user id with no row in [users] changes
    nothing: no error, no new row, no total moved. In general a total
    moves only for the user named in the call, and only when that user
    already has a row. *)
Theorem add_point_unregistered_noop d user_id :
  ¬ registered d user_id →
  add_point d user_id = d ∧
  (∀ v, registered (add_point d user_id) v ↔ registered d v) ∧
  (∀ d0 u v, total_points_of (add_point d0 u) v ≠ total_points_of d0 v →
             registered d0 v ∧ v = u).
Proof.
  intros Hreg.
  assert (add_point d user_id = d) as Heq.
  { unfold add_point. rewrite fmap_id_on; [apply db_eta|].
    intros u Hu. case_decide as Hid; [|done].
    destruct Hreg. unfold registered. rewrite <- Hid.
    by apply list_elem_of_fmap_2. }
  split; [done|]. split; [by rewrite Heq|].
  intros d0 u v. rewrite add_point_points.
  destruct (total_points_of d0 v) as [p|] eqn:Hp; [|done].
  apply total_points_of_registered in Hp. simpl.
  case_decide; [done|]. by intros [].
Qed.

Lemma add_point_unregistered_noop_witness :
  add_point (db one_creator) 2 = db one_creator.
Proof.
  apply (add_point_unregistered_noop (db one_creator) 2).
  unfold registered. vm_compute. intros H.
  apply elem_of_cons in H as [H|H]; [discriminate|inversion H].
Defined.

(** ** The link pattern *)

Lemma url_items_dollar :
  url_items ++ [Dollar] =
  [Lit 104; Lit 116; Lit 116; Lit 112; OptLit 115; Lit 58; Lit 47; Lit 47;
   Plus not_space; Dollar]%N.
Proof. reflexivity. Qed.

Lemma re_match_dollar s r :
  re_match [Dollar] s = Some r ↔ s = r ∧ (r = [] ∨ r = [10%N]).
Proof.
  simpl. case_bool_decide as Hs.
  - split; [by intros [= <-]|]. by intros [<- _].
  - split; [done|]. by intros [<- ?].
Qed.

Lemma plus_dollar_complete body r :
  body ≠ [] → Forall (fun c => is_space c = false) body →
  r = [] ∨ r = [10%N] →
  plus_loop not_space (re_match [Dollar]) (body ++ r) = Some r.
Proof.
  intros Hne Hall Hr. induction body as [|c body IH]; [done|].
  apply Forall_cons in Hall as [Hc Hall].
  change ((c :: body) ++ r) with (c :: (body ++ r)).
  cbn [plus_loop]. unfold not_space at 1. rewrite Hc. cbn [negb].
  destruct body as [|c' body].
  - destruct Hr as [->| ->]; reflexivity.
  - by rewrite IH.
Qed.

Lemma plus_dollar_sound s r :
  plus_loop not_space (re_match [Dollar]) s = Some r →
  ∃ body, body ≠ [] ∧ Forall (fun c => is_space c = false) body ∧
          s = body ++ r ∧ (r = [] ∨ r = [10%N]).
Proof.
  revert r. induction s as [|c s IH]; intros r; [done|].
  cbn [plus_loop]. unfold not_space at 1.
  destruct (is_space c) eqn:Hc; cbn [negb]; [done|].
  destruct (plus_loop not_space (re_match [Dollar]) s) as [r'|].
  - intros [= <-]. destruct (IH r' eq_refl) as (body & Hne & Hall & -> & Hr).
    exists (c :: body). repeat split; [done| |done]. by apply Forall_cons.
  - intros [-> Hr]%re_match_dollar. exists [c]. repeat split; [done| |done].
    by apply Forall_singleton.
Qed.

Lemma re_match_lit c items s r :
  re_match (Lit c :: items) s = Some r →
  ∃ s', s = c :: s' ∧ re_match items s' = Some r.
Proof.
  cbn [re_match]. destruct s as [|c' s']; [done|].
  destruct (N.eqb_spec c c') as [<-|]; [|done]. by exists s'.
Qed.

Lemma re_match_optlit c items s r :
  re_match (OptLit c :: items) s = Some r →
  (∃ s', s = c :: s' ∧ re_match items s' = Some r) ∨
  re_match items s = Some r.
Proof.
  cbn [re_match]. destruct s as [|c' s']; [by right|].
  destruct (N.eqb_spec c c') as [<-|]; [|by right].
  destruct (re_match items s') as [r'|] eqn:Hm; [|by right].
  intros [= <-]. left. by exists s'.
Qed.

Lemma re_match_lit_eq c items s :
  re_match (Lit c :: items) (c :: s) = re_match items s.
Proof. cbn [re_match]. by rewrite N.eqb_refl. Qed.

Lemma re_match_optlit_skip c c' items s :
  c ≠ c' → re_match (OptLit c :: items) (c' :: s) = re_match items (c' :: s).
Proof. intros Hc. cbn [re_match]. by destruct (N.eqb_spec c c'). Qed.

Lemma re_match_optlit_take c items s r :
  re_match items s = Some r → re_match (OptLit c :: items) (c :: s) = Some r.
Proof. intros Hr. cbn [re_match]. by rewrite N.eqb_refl, Hr. Qed.

(** [url_pattern_match] accepts exactly the [url_shaped] strings. *)
Lemma url_pattern_match_shaped s :
  url_pattern_match s = true ↔ url_shaped s.
Proof.
  unfold url_pattern_match. rewrite bool_decide_eq_true, url_items_dollar.
  split.
  - intros [r Hr].
    do 4 apply re_match_lit in Hr as (? & -> & Hr).
    apply re_match_optlit in Hr as [(? & -> & Hr)|Hr];
      do 3 apply re_match_lit in Hr as (? & -> & Hr);
      apply plus_dollar_sound in Hr as (body & Hne & Hall & -> & Hr').
    + exists (py "https://"), body, r. split; [reflexivity|]. auto.
    + exists (py "http://"), body, r. split; [reflexivity|]. auto.
  - intros (scheme & body & tail & -> & Hscheme & Hne & Hall & Htail).
    exists tail.
    pose proof (plus_dollar_complete body tail Hne Hall Htail) as Hloop.
    destruct Hscheme as [-> | ->].
    + change (py "http://" ++ body ++ tail)
        with (104 :: 116 :: 116 :: 112 :: 58 :: 47 :: 47 :: body ++ tail)%N.
      rewrite !re_match_lit_eq, re_match_optlit_skip by done.
      by rewrite !re_match_lit_eq.
    + change (py "https://" ++ body ++ tail)
        with (104 :: 116 :: 116 :: 112 :: 115 :: 58 :: 47 :: 47 :: body ++ tail)%N.
      rewrite !re_match_lit_eq. apply re_match_optlit_take.
      by rewrite !re_match_lit_eq.
Qed.

(** ** C9: rejected link edits *)

(** Every answer of [change_link] but the successful update leaves the
    bot as it was. *)
Lemma change_link_failure_frame bot cmd bot' out :
  change_link bot cmd = (bot', out) →
  bot' = bot ∨ ∃ log, out = LinkUpdated log.
Proof.
  unfold change_link. intros H.
  repeat match type of H with
         | (if ?c then _ else _) = _ => destruct c
         | match ?c with _ => _ end = _ => destruct c
         end;
    simplify_eq; eauto.
Qed.

(** C9, as the code has it. [change_link] first tests the pattern and
    answers "Invalid URL format" when the new link is not [url_shaped]: a
    test of the prefix and of white space, not of URI syntax. A link that
    passes is answered with "You don't have an active session" when the
    user owns no session row. Every answer other than the successful
    update leaves the bot, and so the store, as it was. *)
Theorem change_link_rejections bot cmd :
  (¬ url_shaped (c_new_link cmd) → change_link bot cmd = (bot, InvalidLink)) ∧
  (url_shaped (c_new_link cmd) → ¬ has_session (db bot) (c_user_id cmd) →
   change_link bot cmd = (bot, NoActiveSession)) ∧
  (∀ bot' out, change_link bot cmd = (bot', out) →
               bot' = bot ∨ ∃ log, out = LinkUpdated log).
Proof.
  split; [|split].
  - intros Hshape. unfold change_link.
    destruct (url_pattern_match (c_new_link cmd)) eqn:Hm; [|done].
    by apply url_pattern_match_shaped in Hm.
  - intros Hshape%url_pattern_match_shaped Hnone%get_active_session_None.
    unfold change_link. by rewrite Hshape, Hnone.
  - apply change_link_failure_frame.
Qed.

(** C9 as stated fails: the link [http://<>] is no well-formed URI, yet
    [change_link] accepts it and stores it. *)
Lemma change_link_accepts_malformed_uri :
  well_formed_http_uri (py "http://<>") = false ∧
  (change_link one_creator (edit_cmd 1 (py "http://<>"))).2 =
    LinkUpdated (Some (py "http://x/1", py "http://<>")) ∧
  Session.link <$> sessions (db (change_link one_creator
                                  (edit_cmd 1 (py "http://<>"))).1) =
    [py "http://<>"].
Proof. repeat split. Qed.

(** The pattern is tested before the session is looked up: a user
    without a session who sends a malformed link is told "Invalid URL
    format". *)
Example change_link_checks_link_first :
  get_active_session (db one_creator) 2 = None ∧
  change_link one_creator (edit_cmd 2 (py "x/2")) = (one_creator, InvalidLink).
Proof. split; reflexivity. Qed.

(** ** C8: editing the link in place *)


Section update_link.
Context (d : Database) (new_link : str) (sid : Z).

Let upd (s : Session.t) : Session.t :=
  if decide (Session.session_id s = sid) then set_link new_link s else s.

Lemma update_link_sessions :
  sessions (update_link d new_link sid) = upd <$> sessions d.
Proof. reflexivity. Qed.



End update_link.

(** A successful [change_link] writes through [update_link]. *)
Lemma change_link_updated bot cmd bot' log :
  change_link bot cmd = (bot', LinkUpdated log) →
  ∃ session,
    get_active_session (db bot) (c_user_id cmd) = Some session ∧
    bot' = with_db bot (update_link (db bot) (c_new_link cmd)
                                    (d_session_id session)) ∧
    log = (if c_log_channel cmd
           then Some (d_link session, c_new_link cmd) else None).
Proof.
  unfold change_link. intros H.
  destruct (negb (url_pattern_match _)); [done|].
  destruct (get_active_session _ _) as [session|]; [|done].
  exists session.
  destruct (negb _); [done|].
  destruct (c_fetch cmd), (c_edit cmd); try done.
  destruct (c_log_channel cmd); [destruct (c_log_send cmd)|];
    by simplify_eq.
Qed.




(** ** Edges *)

Lemma has_engaged_edge d engager_id session_id :
  has_engaged d engager_id session_id = true ↔ edge d engager_id session_id.
Proof.
  unfold has_engaged, edge. rewrite Z.ltb_lt, list_elem_of_fmap. split.
  - intros Hlen.
    destruct (filter _ (engagements d)) as [|g l] eqn:Hf; [simpl in Hlen; lia|].
    assert (g ∈ g :: l) as Hin by left. rewrite <- Hf in Hin.
    apply list_elem_of_filter in Hin as [[<- <-] Hin]. by exists g.
  - intros (g & Hpair & Hin). injection Hpair as Hg1 Hg2.
    assert (g ∈ filter (fun g => Engagement.engager_id g = engager_id ∧
                            Engagement.target_session_id g = session_id)
                         (engagements d)) as Hf
      by (by apply list_elem_of_filter).
    destruct (filter _ (engagements d)); [inversion Hf|simpl; lia].
Qed.

Lemma has_engaged_no_edge d engager_id session_id :
  has_engaged d engager_id session_id = false ↔ ¬ edge d engager_id session_id.
Proof. rewrite <- has_engaged_edge. by destruct (has_engaged _ _ _). Qed.

(** What [add_engagement] does to the store. *)
Lemma add_engagement_new d engager_id session_id now :
  has_engaged d engager_id session_id = false →
  add_engagement d engager_id session_id now =
  (insert_engagement d engager_id session_id now, true).
Proof. intros H. unfold add_engagement. by rewrite H. Qed.

Lemma add_engagement_old d engager_id session_id now :
  has_engaged d engager_id session_id = true →
  add_engagement d engager_id session_id now = (d, false).
Proof. intros H. unfold add_engagement. by rewrite H. Qed.

Lemma add_engagement_unique d engager_id session_id now :
  unique_edges d → unique_edges (add_engagement d engager_id session_id now).1.
Proof.
  intros Huniq. unfold add_engagement.
  destruct (has_engaged d engager_id session_id) eqn:Hhas; [done|].
  apply has_engaged_no_edge in Hhas.
  unfold unique_edges. cbn [fst engagements insert_engagement].
  rewrite fmap_app. apply NoDup_app. split; [done|]. split.
  - intros x Hx ->%list_elem_of_singleton. by apply Hhas.
  - apply NoDup_singleton.
Qed.

(** At most one edge per pair, after every sequence of store calls. *)
Lemma unique_edges_apply_ops d ops :
  unique_edges d → unique_edges (apply_ops d ops).
Proof.
  revert d. induction ops as [|op ops IH]; intros d Hd; [done|].
  apply IH. destruct op; try done.
  - by apply add_engagement_unique.
  - apply NoDup_nil_2.
Qed.

(** A second [add_engagement] for the same pair is refused and writes
    nothing. *)
Lemma add_engagement_twice d engager_id session_id now now' :
  let d1 := (add_engagement d engager_id session_id now).1 in
  add_engagement d1 engager_id session_id now' = (d1, false).
Proof.
  intros d1. apply add_engagement_old, has_engaged_edge. subst d1.
  unfold add_engagement.
  destruct (has_engaged d engager_id session_id) eqn:Hhas.
  - by apply has_engaged_edge.
  - unfold edge. cbn [fst engagements insert_engagement]. rewrite fmap_app.
    apply elem_of_app. right. left.
Qed.

(** ** The reaction listener, case by case *)

Lemma find_owner_session_row d guild_members message_id session :
  find_owner_session d guild_members message_id = Some session →
  ∃ row, row ∈ sessions d ∧ session = session_dict row ∧
         Session.message_id row = message_id.
Proof.
  induction guild_members as [|u rest IH]; simpl; [done|].
  destruct (get_active_session d u) as [s|] eqn:Hget; [|done].
  case_decide as Hmsg; [|done]. intros [= <-].
  destruct (get_active_session_row _ _ _ Hget) as (row & Hin & -> & _).
  by exists row.
Qed.

(** The listener on a reaction that [resolves]. *)
Lemma reaction_resolved bot payload session :
  resolves bot payload session →
  on_raw_reaction_add bot payload =
  if has_engaged (db bot) (r_user_id payload) (d_session_id session)
  then (bot, AlreadyEngaged)
  else (with_db bot (record (db bot) (r_user_id payload)
                       (d_session_id session) (r_now payload)), Recorded).
Proof.
  intros (Hbot & Hblocked & Hemoji & Hchannel & Hembeds &
          (guild_members & Hmembers & Hfind) & Hself & Hzero).
  unfold on_raw_reaction_add.
  rewrite decide_False, Hblocked, Hemoji, bool_decide_eq_true_2 by done.
  rewrite Hchannel, Hembeds, Hmembers, Hfind. cbn [negb].
  rewrite decide_False, decide_False by done.
  destruct (has_engaged _ _ _) eqn:Hhas; [done|].
  unfold record. by rewrite add_engagement_new.
Qed.

(** Either the listener leaves the bot alone, or the reaction [resolves],
    carries no edge yet and is recorded. *)
Lemma on_raw_reaction_add_cases bot payload :
  (on_raw_reaction_add bot payload).1 = bot ∧
    (on_raw_reaction_add bot payload).2 ≠ Recorded
  ∨
  ∃ session,
    resolves bot payload session ∧
    has_engaged (db bot) (r_user_id payload) (d_session_id session) = false ∧
    on_raw_reaction_add bot payload =
      (with_db bot (record (db bot) (r_user_id payload)
                      (d_session_id session) (r_now payload)), Recorded).
Proof.
  destruct (decide (r_user_id payload = bot_user_id bot)) as [Hbot|Hbot].
  { left. unfold on_raw_reaction_add. by rewrite decide_True. }
  destruct (channel_blocked bot (r_channel_id payload)) eqn:Hblocked.
  { left. unfold on_raw_reaction_add. by rewrite decide_False, Hblocked. }
  destruct (decide (r_emoji payload = checkmark_emoji)) as [Hemoji|Hemoji].
  2:{ left. unfold on_raw_reaction_add.
      by rewrite decide_False, Hblocked, bool_decide_eq_false_2. }
  destruct (r_channel payload) eqn:Hchannel.
  2:{ left. unfold on_raw_reaction_add.
      by rewrite decide_False, Hblocked, bool_decide_eq_true_2, Hchannel. }
  assert (∀ rest,
    (if decide (r_user_id payload = bot_user_id bot)
     then (bot, ReactionIgnored)
     else if channel_blocked bot (r_channel_id payload)
     then (bot, ReactionIgnored)
     else if negb (bool_decide (r_emoji payload = checkmark_emoji))
     then (bot, ReactionIgnored)
     else if negb (r_channel payload) then (bot, ReactionIgnored)
     else rest) = rest) as Hskip.
  { intros rest.
    by rewrite decide_False, Hblocked, bool_decide_eq_true_2, Hchannel. }
  destruct (r_message_embeds payload) as [[]|] eqn:Hembeds.
  2,3: left; unfold on_raw_reaction_add; by rewrite Hskip, Hembeds.
  destruct (r_guild_members payload) as [guild_members|] eqn:Hmembers.
  2:{ left. unfold on_raw_reaction_add. by rewrite Hskip, Hembeds, Hmembers. }
  destruct (find_owner_session (db bot) guild_members (r_message_id payload))
    as [session|] eqn:Hfind.
  2:{ left. unfold on_raw_reaction_add.
      by rewrite Hskip, Hembeds, Hmembers, Hfind. }
  destruct (decide (r_user_id payload = d_user_id session)) as [Hself|Hself].
  { left. unfold on_raw_reaction_add.
    by rewrite Hskip, Hembeds, Hmembers, Hfind, decide_True. }
  destruct (decide (d_session_id session = 0)) as [Hzero|Hzero].
  { left. unfold on_raw_reaction_add.
    by rewrite Hskip, Hembeds, Hmembers, Hfind, decide_False, decide_True. }
  assert (resolves bot payload session) as Hres.
  { repeat split; try done. by exists guild_members. }
  rewrite (reaction_resolved _ _ _ Hres).
  destruct (has_engaged _ _ _) eqn:Hhas; [by left|].
  right. by exists session.
Qed.

Lemma find_owner_session_same_sessions d d' guild_members message_id :
  sessions d' = sessions d →
  find_owner_session d' guild_members message_id =
  find_owner_session d guild_members message_id.
Proof.
  intros Hd. induction guild_members as [|u rest IH]; simpl; [done|].
  unfold get_active_session. by rewrite Hd, IH.
Qed.

(** The same reaction, delivered again, is answered "already engaged"
    and writes nothing. *)
Lemma second_reaction_already_engaged bot payload bot1 now :
  on_raw_reaction_add bot payload = (bot1, Recorded) →
  on_raw_reaction_add bot1 (redelivered payload now) = (bot1, AlreadyEngaged).
Proof.
  intros Hfirst.
  destruct (on_raw_reaction_add_cases bot payload)
    as [[_ Hout]|(session & Hres & Hhas & Hrec)].
  { by rewrite Hfirst in Hout. }
  rewrite Hrec in Hfirst. injection Hfirst as <-.
  assert (resolves
            (with_db bot (record (db bot) (r_user_id payload)
                            (d_session_id session) (r_now payload)))
            (redelivered payload now) session) as Hres'.
  { destruct Hres as (? & ? & ? & ? & ? & (gm & ? & Hfind) & ? & ?).
    repeat split; try done. exists gm. split; [done|].
    rewrite <- Hfind. apply find_owner_session_same_sessions.
    unfold record, add_engagement. by destruct (has_engaged _ _ _). }
  rewrite (reaction_resolved _ _ _ Hres').
  assert (has_engaged
            (db (with_db bot (record (db bot) (r_user_id payload)
                                (d_session_id session) (r_now payload))))
            (r_user_id (redelivered payload now)) (d_session_id session)
          = true) as ->; [|done].
  apply has_engaged_edge. unfold edge, record. cbn [db with_db r_user_id redelivered].
  rewrite add_engagement_new by done.
  cbn [fst engagements add_point insert_engagement].
  rewrite fmap_app. apply elem_of_app. right. left.
Qed.

(** A recorded engagement adds one to the total of an engager who has a
    row in [users], and to nobody else's. *)
Lemma record_points d engager_id session_id now u :
  total_points_of (record d engager_id session_id now) u =
  (fun p => if decide (u = engager_id) then p + 1 else p) <$>
  total_points_of d u.
Proof.
  unfold record. rewrite add_point_points. f_equal.
  unfold total_points_of, add_engagement. by destruct (has_engaged _ _ _).
Qed.

(** ** C1: one edge and one point per engagement *)

Lemma on_message_engagements bot message :
  engagements (db (on_message bot message).1) = engagements (db bot).
Proof.
  unfold on_message.
  destruct (m_author_bot message); [done|].
  destruct (channel_blocked _ _); [done|].
  destruct (first_url _) as [link|]; [|done].
  destruct (get_active_session _ _); [done|].
  by destruct (m_formatted_msg message).
Qed.

(** At most one edge per pair, after every run of the bot. *)
Lemma unique_edges_run bot events :
  unique_edges (db bot) → unique_edges (db (run bot events)).
Proof.
  revert bot. induction events as [|e events IH]; intros bot Hbot; [done|].
  apply IH.
  pose proof (handle_config_tables bot e) as Hcfg.
  destruct e as [message|payload|cmd|administrator deferred| | |];
    try (destruct Hcfg as (_ & _ & He & _); unfold unique_edges;
         by rewrite He).
  - unfold handle, unique_edges. by rewrite on_message_engagements.
  - unfold handle.
    destruct (on_raw_reaction_add_cases bot payload)
      as [[-> _]|(session & _ & _ & ->)]; [done|].
    unfold record, unique_edges. cbn [fst db with_db add_point engagements].
    by apply add_engagement_unique.
  - unfold handle.
    destruct (change_link bot cmd) as [bot' out] eqn:Hchange.
    destruct (change_link_failure_frame _ _ _ _ Hchange) as [->|[log ->]];
      [done|].
    by apply change_link_updated in Hchange as (session & _ & -> & _).
  - destruct administrator, deferred; [apply NoDup_nil_2|done..].
Qed.

(** The parts of C1 that hold on every run: edges stay unique, a
    redelivered reaction is answered "already engaged" and writes nothing,
    and an engager who has a row in [users] gains exactly one point over
    the two deliveries. *)
Lemma recorded_once bot events payload bot1 now p :
  unique_edges (db bot) →
  on_raw_reaction_add (run bot events) payload = (bot1, Recorded) →
  total_points_of (db (run bot events)) (r_user_id payload) = Some p →
  unique_edges (db bot1) ∧
  on_raw_reaction_add bot1 (redelivered payload now) = (bot1, AlreadyEngaged) ∧
  total_points_of (db bot1) (r_user_id payload) = Some (p + 1).
Proof.
  intros Huniq Hrec Hpoints. split; [|split].
  - change bot1 with (bot1, Recorded).1. rewrite <- Hrec.
    apply (unique_edges_run bot (events ++ [ReactionAdded payload])) in Huniq.
    unfold run in Huniq. by rewrite foldl_app in Huniq.
  - by apply (second_reaction_already_engaged _ _ _ now Hrec).
  - destruct (on_raw_reaction_add_cases (run bot events) payload)
      as [[_ Hout]|(session & _ & _ & Hrec')].
    { by rewrite Hrec in Hout. }
    rewrite Hrec' in Hrec. injection Hrec as <-.
    cbn [db with_db]. rewrite record_points, Hpoints. simpl.
    by rewrite decide_True.
Qed.

(** Uniqueness rests on the check of [add_engagement] alone: its check
    and its INSERT are separate awaited statements and the table declares
    no UNIQUE constraint. If two deliveries of one reaction both pass the
    check before either INSERT runs, both rows are stored and both points
    awarded. *)
Example unguarded_inserts_duplicate :
  has_engaged (db three_creators) 2 3 = false ∧
  edge_pair <$> engagements
    (insert_engagement (insert_engagement (db three_creators) 2 3 20) 2 3 20)
    = [(2, 1); (3, 1); (2, 3); (2, 3)] ∧
  total_points_of
    (add_point
       (add_point
          (insert_engagement (insert_engagement (db three_creators) 2 3 20)
                             2 3 20) 2) 2) 2
    = (fun p => p + 2) <$> total_points_of (db three_creators) 2.
Proof. repeat split. Qed.

(** C1, at an engager the claim does not hold for. User 4 never posted,
    so has no row in [users]. Their check mark on the post of user 1 is
    recorded and the edge is stored once; the redelivered reaction is
    answered "already engaged"; but [add_point] finds no row to update:
    [users] is unchanged and user 4 has no point. *)
Theorem unregistered_engager_gets_no_point :
  ¬ registered (db three_creators) 4 ∧
  (on_raw_reaction_add three_creators (react_at 4 101 20)).2 = Recorded ∧
  edge_pair <$> engagements
     (db (on_raw_reaction_add three_creators (react_at 4 101 20)).1)
    = [(2, 1); (3, 1); (4, 1)] ∧
  (on_raw_reaction_add
     (on_raw_reaction_add three_creators (react_at 4 101 20)).1
     (redelivered (react_at 4 101 20) 21)).2 = AlreadyEngaged ∧
  users (db (on_raw_reaction_add three_creators (react_at 4 101 20)).1)
    = users (db three_creators) ∧
  points (db (on_raw_reaction_add three_creators (react_at 4 101 20)).1) 4 = 0 ∧
  get_leaderboard
    (db (on_raw_reaction_add three_creators (react_at 4 101 20)).1) 10
    = [(2, py "creator", 1); (3, py "creator", 1); (1, py "creator", 0)].
Proof.
  split; [|by vm_compute].
  unfold registered. vm_compute. intros H.
  repeat (apply elem_of_cons in H as [H|H]; [discriminate|]). inversion H.
Qed.

(** ** C6: no self-engagement *)

Lemma NoDup_fmap_eq {A B} (f : A -> B) (l : list A) x y :
  NoDup (f <$> l) → x ∈ l → y ∈ l → f x = f y → x = y.
Proof.
  induction l as [|z l IH]; intros Hnd Hx Hy Hf; [inversion Hx|].
  rewrite fmap_cons in Hnd. apply NoDup_cons in Hnd as [Hz Hnd].
  apply elem_of_cons in Hx as [->|Hx], Hy as [->|Hy]; auto.
  - destruct Hz. rewrite Hf. by apply list_elem_of_fmap_2.
  - destruct Hz. rewrite <- Hf. by apply list_elem_of_fmap_2.
Qed.

Lemma pipeline_inv_no_self_edges d : pipeline_inv d → no_self_edges d.
Proof.
  intros (Hpk & _ & Hedges) g s Hg Hs Hid.
  rewrite Forall_forall in Hedges.
  destruct (Hedges g Hg) as (s0 & Hs0 & Hid0 & Howner).
  assert (s = s0) as -> by (eapply NoDup_fmap_eq; [exact Hpk|done..|congruence]).
  done.
Qed.

Lemma pipeline_inv_same d d' :
  sessions d' = sessions d → engagements d' = engagements d →
  seq_sessions d' = seq_sessions d →
  pipeline_inv d → pipeline_inv d'.
Proof. unfold pipeline_inv, sessions_pk. by intros -> -> ->. Qed.

Lemma pipeline_inv_add_session d user_id link message_id channel_id now :
  pipeline_inv d →
  pipeline_inv (add_session d user_id link message_id channel_id now).1.
Proof.
  intros (Hpk & Hseq & Hedges). unfold pipeline_inv, sessions_pk.
  cbn [fst add_session sessions engagements seq_sessions].
  rewrite Forall_forall in Hseq. split; [|split].
  - rewrite fmap_app. apply NoDup_app. split; [done|]. split.
    + intros x (s & -> & Hs)%list_elem_of_fmap Hx%list_elem_of_singleton.
      simpl in Hx. specialize (Hseq s Hs). lia.
    + apply NoDup_singleton.
  - apply Forall_app. split.
    + apply Forall_forall. intros s Hs. specialize (Hseq s Hs). lia.
    + apply Forall_singleton. simpl. lia.
  - eapply Forall_impl; [exact Hedges|]. intros g (s & Hs & ? & ?).
    exists s. split; [|done]. apply elem_of_app. by left.
Qed.

Lemma pipeline_inv_record d row engager_id now :
  row ∈ sessions d → Session.user_id row ≠ engager_id →
  pipeline_inv d →
  pipeline_inv (record d engager_id (Session.session_id row) now).
Proof.
  intros Hrow Howner (Hpk & Hseq & Hedges).
  unfold record, add_engagement.
  destruct (has_engaged _ _ _); [done|].
  unfold pipeline_inv, sessions_pk.
  cbn [fst add_point sessions engagements seq_sessions insert_engagement].
  repeat split; [done..|].
  apply Forall_app. split; [done|]. apply Forall_singleton. by exists row.
Qed.

Lemma pipeline_inv_update_link d new_link sid :
  pipeline_inv d → pipeline_inv (update_link d new_link sid).
Proof.
  intros (Hpk & Hseq & Hedges). unfold pipeline_inv, sessions_pk.
  rewrite update_link_sessions. cbn [update_link engagements seq_sessions].
  assert (∀ s, Session.session_id
                 (if decide (Session.session_id s = sid)
                  then set_link new_link s else s) = Session.session_id s)
    as Hid by (intros s; by case_decide).
  assert (∀ s, Session.user_id
                 (if decide (Session.session_id s = sid)
                  then set_link new_link s else s) = Session.user_id s)
    as Hown by (intros s; by case_decide).
  split; [|split].
  - rewrite <- list_fmap_compose.
    erewrite list_fmap_ext; [exact Hpk|]. intros _ s _. apply Hid.
  - apply Forall_fmap. eapply Forall_impl; [exact Hseq|].
    intros s Hs. simpl. by rewrite Hid.
  - eapply Forall_impl; [exact Hedges|]. intros g (s & Hs & Hs1 & Hs2).
    eexists. split; [by apply list_elem_of_fmap_2|].
    by rewrite Hid, Hown.
Qed.

Lemma pipeline_inv_reset d : pipeline_inv d → pipeline_inv (reset_all_sessions d).
Proof.
  intros _. unfold pipeline_inv, sessions_pk. simpl.
  split; [apply NoDup_nil_2|]. by split.
Qed.

Lemma resolves_row bot payload session :
  resolves bot payload session →
  ∃ row, row ∈ sessions (db bot) ∧ session = session_dict row ∧
         Session.message_id row = r_message_id payload ∧
         Session.user_id row ≠ r_user_id payload.
Proof.
  intros (_ & _ & _ & _ & _ & (gm & _ & Hfind) & Hself & _).
  apply find_owner_session_row in Hfind as (row & Hin & -> & Hmsg).
  exists row. repeat split; [done..|]. simpl in Hself. congruence.
Qed.

Lemma pipeline_inv_handle bot e :
  pipeline_inv (db bot) → pipeline_inv (db (handle bot e)).
Proof.
  intros Hinv.
  pose proof (handle_config_tables bot e) as Hcfg.
  destruct e as [message|payload|cmd|administrator deferred| | |];
    try (destruct Hcfg as (_ & Hs & He & Hss & _);
         by apply (pipeline_inv_same (db bot))).
  - unfold handle, on_message.
    destruct (m_author_bot message); [done|].
    destruct (channel_blocked _ _); [done|].
    destruct (first_url _) as [link|]; [|done].
    destruct (get_active_session _ _); [done|].
    assert (pipeline_inv (add_user (db bot) (m_author_id message)
                            (m_display_name message) (m_user_now message)))
      as Hinv' by (by eapply pipeline_inv_same; [..|exact Hinv]).
    destruct (m_formatted_msg message) as [formatted_msg_id|]; [|done].
    by apply pipeline_inv_add_session.
  - unfold handle.
    destruct (on_raw_reaction_add_cases bot payload)
      as [[-> _]|(session & Hres & _ & ->)]; [done|].
    apply resolves_row in Hres as (row & Hin & -> & _ & Howner).
    by apply pipeline_inv_record.
  - unfold handle.
    destruct (change_link bot cmd) as [bot' out] eqn:Hchange.
    destruct (change_link_failure_frame _ _ _ _ Hchange) as [->|[log ->]];
      [done|].
    apply change_link_updated in Hchange as (session & _ & -> & _).
    by apply pipeline_inv_update_link.
  - destruct administrator, deferred; [|done..]. by apply pipeline_inv_reset.
Qed.

Lemma pipeline_inv_run bot events :
  pipeline_inv (db bot) → pipeline_inv (db (run bot events)).
Proof.
  revert bot. induction events as [|e events IH]; intros bot Hinv; [done|].
  by apply IH, pipeline_inv_handle.
Qed.

(** C6. Starting from a store in which every edge points at a session of
    another user, no run of the bot ever stores an edge from a user to a
    session of their own. A reaction on a message that only the reactor's
    own sessions carry is never recorded and leaves the bot as it was;
    this covers the reaction that arrives before the session row exists. *)
Theorem self_engagement_rejected bot events :
  pipeline_inv (db bot) →
  no_self_edges (db (run bot events)) ∧
  ∀ payload,
    (∀ s, s ∈ sessions (db (run bot events)) →
          Session.message_id s = r_message_id payload →
          Session.user_id s = r_user_id payload) →
    (on_raw_reaction_add (run bot events) payload).1 = run bot events ∧
    (on_raw_reaction_add (run bot events) payload).2 ≠ Recorded.
Proof.
  intros Hinv. split.
  - by apply pipeline_inv_no_self_edges, pipeline_inv_run.
  - intros payload Hown.
    destruct (on_raw_reaction_add_cases (run bot events) payload)
      as [?|(session & Hres & _)]; [done|].
    apply resolves_row in Hres as (row & Hin & _ & Hmsg & Howner).
    by destruct Howner; apply Hown.
Qed.

Lemma self_engagement_rejected_witness :
  no_self_edges (db three_creators) ∧
  on_raw_reaction_add three_creators (react_at 1 101 30)
    = (three_creators, SelfEngagement).
Proof.
  destruct (self_engagement_rejected sample_bot
    [post 1 101 10 "my video http://x/1"; post 2 102 11 "http://x/b";
     post 3 103 12 "http://x/c"; react 2 101 13; react 3 101 14])
    as [Hno _].
  - split; [apply NoDup_nil_2|]. split; apply Forall_nil_2.
  - split; [exact Hno|reflexivity].
Defined.

(** ** The latest session of every user *)

Lemma latest_session_groups d :
  fst <$> latest_session_rows d =
  order_by Z.leb (remove_dups (Session.user_id <$> sessions d)).
Proof.
  unfold latest_session_rows.
  assert (∀ u, u ∈ order_by Z.leb (remove_dups (Session.user_id <$> sessions d))
               → has_session d u) as Hgroups.
  { intros u. by rewrite elem_of_order_by, elem_of_remove_dups. }
  induction (order_by Z.leb (remove_dups (Session.user_id <$> sessions d)))
    as [|u groups IH]; [done|].
  cbn [omap list_omap].
  assert (has_session d u) as Hu by (apply Hgroups; left).
  apply has_session_filter in Hu.
  destruct (filter (fun s => Session.user_id s = u) (sessions d))
    as [|s l] eqn:Hf; [done|].
  csimpl. f_equal. apply IH. intros v Hv. apply Hgroups. by right.
Qed.

Lemma elem_of_latest_session_rows d u m :
  (u, m) ∈ latest_session_rows d ↔ is_latest d u m.
Proof.
  unfold latest_session_rows, is_latest. rewrite list_elem_of_omap.
  setoid_rewrite elem_of_order_by. setoid_rewrite elem_of_remove_dups.
  split.
  - intros (u' & Hu' & Hrow).
    destruct (MAX _) as [m'|] eqn:Hmax; [|done]. injection Hrow as -> ->.
    apply MAX_spec in Hmax as [Hin Hle].
    apply list_elem_of_fmap in Hin as (s & -> & [Hs Hin]%list_elem_of_filter).
    split; [by exists s|]. intros s' Hs' Hu. apply Hle.
    apply list_elem_of_fmap_2. by apply list_elem_of_filter.
  - intros [(s & Hs & Hu & Hid) Hle]. exists u. split.
    { rewrite <- Hu. by apply list_elem_of_fmap_2. }
    assert (MAX (Session.session_id <$>
                 filter (fun s => Session.user_id s = u) (sessions d)) = Some m)
      as ->; [|done].
    apply MAX_spec. split.
    + rewrite <- Hid. apply list_elem_of_fmap_2. by apply list_elem_of_filter.
    + intros y (s' & -> & [Hs'u Hs']%list_elem_of_filter)%list_elem_of_fmap.
      by apply Hle.
Qed.

Lemma latest_session_rows_NoDup d : NoDup (fst <$> latest_session_rows d).
Proof.
  rewrite latest_session_groups, order_by_NoDup. apply NoDup_remove_dups.
Qed.

Lemma foldl_insert_lookup (rows : list (Z * Z)) (m0 : gmap Z Z) u v :
  NoDup (fst <$> rows) →
  (foldl (fun m r => <[r.1 := r.2]> m) m0 rows) !! u = Some v ↔
  (u, v) ∈ rows ∨ ((u ∉ fst <$> rows) ∧ m0 !! u = Some v).
Proof.
  revert m0. induction rows as [|[k x] rows IH]; intros m0 Hnd.
  - simpl. split; [intros ?; right; split; [|done]; apply not_elem_of_nil|].
    intros [H|[_ ?]]; [inversion H|done].
  - rewrite fmap_cons in Hnd. apply NoDup_cons in Hnd as [Hk Hnd].
    cbn [foldl]. rewrite IH by done. cbn [fst snd]. split.
    + intros [Hin|[Hnotin Hlook]]; [left; by right|].
      destruct (decide (k = u)) as [->|Hku].
      * rewrite lookup_insert_eq in Hlook. injection Hlook as ->. left. left.
      * rewrite lookup_insert_ne in Hlook by done. right. split; [|done].
        rewrite fmap_cons. intros [?|?]%elem_of_cons; simpl in *; congruence.
    + intros [[Heq|Hin]%elem_of_cons|[Hnotin Hlook]].
      * injection Heq as -> ->. right. split; [done|]. apply lookup_insert_eq.
      * by left.
      * rewrite fmap_cons in Hnotin. apply not_elem_of_cons in Hnotin as [Hku ?].
        right. split; [done|]. simpl in Hku. by rewrite lookup_insert_ne.
Qed.

(** [get_latest_sessions_map] maps every owner to their greatest
    session id, and nobody else. *)
Lemma get_latest_sessions_map_lookup d u m :
  get_latest_sessions_map d !! u = Some m ↔ is_latest d u m.
Proof.
  unfold get_latest_sessions_map, dict_of_rows.
  rewrite foldl_insert_lookup by apply latest_session_rows_NoDup.
  rewrite elem_of_latest_session_rows, lookup_empty.
  split; [intros [?|[_ ?]]; done|by left].
Qed.

Lemma get_latest_sessions_map_dom d u :
  u ∈ dom (get_latest_sessions_map d) ↔ has_session d u.
Proof.
  rewrite elem_of_dom. unfold is_Some.
  setoid_rewrite get_latest_sessions_map_lookup.
  setoid_rewrite <- elem_of_latest_session_rows.
  unfold has_session.
  rewrite <- (elem_of_remove_dups (Session.user_id <$> sessions d)).
  rewrite <- (elem_of_order_by Z.leb), <- latest_session_groups.
  rewrite list_elem_of_fmap. split.
  - intros [m Hm]. by exists (u, m).
  - intros ([u' m] & -> & Hin). by exists m.
Qed.

Lemma elem_of_get_engagers d sid u :
  u ∈ get_engagers_for_session d sid ↔ edge d u sid.
Proof.
  unfold get_engagers_for_session, edge. rewrite !list_elem_of_fmap.
  setoid_rewrite elem_of_order_by. setoid_rewrite list_elem_of_filter.
  split.
  - intros (g & -> & <- & Hin). by exists g.
  - intros (g & [= -> ->] & Hin). by exists g.
Qed.

(** ** C3: the status of a creator *)

(** C3. For a caller with an active session, [status] reports: as
    required count the number of other users who own a session; as
    engaged count the number of those who have an edge to the caller's
    active session; and as pending list, without repetition, exactly the
    others who have none. *)
Theorem status_counts d user_id session :
  get_active_session d user_id = Some session →
  ∃ st,
    status d user_id = Some st ∧
    your_link st = d_link session ∧
    counts (fun u => u ≠ user_id ∧ has_session d u) (total_required st) ∧
    counts (fun u => u ≠ user_id ∧ has_session d u ∧
                     edge d u (d_session_id session))
           (engaged_count st) ∧
    NoDup (pending_ids st) ∧
    ∀ u, u ∈ pending_ids st ↔
         u ≠ user_id ∧ has_session d u ∧ ¬ edge d u (d_session_id session).
Proof.
  intros Hget. unfold status. rewrite Hget. eexists. split; [reflexivity|].
  cbn [your_link total_required engaged_count pending_ids].
  split; [done|]. split; [|split; [|split]].
  - eexists. split; [|split; [|reflexivity]].
    + apply order_by_NoDup, NoDup_filter, NoDup_elements.
    + intros u. rewrite elem_of_order_by, list_elem_of_filter, elem_of_elements.
      by rewrite get_latest_sessions_map_dom.
  - eexists. split; [|split; [|reflexivity]].
    + apply NoDup_elements.
    + intros u. rewrite elem_of_elements, elem_of_intersection,
        elem_of_difference, elem_of_list_to_set, elem_of_singleton.
      rewrite get_latest_sessions_map_dom, elem_of_get_engagers. tauto.
  - apply NoDup_filter, order_by_NoDup, NoDup_filter, NoDup_elements.
  - intros u. rewrite list_elem_of_filter, elem_of_order_by,
      list_elem_of_filter, elem_of_elements, elem_of_list_to_set.
    rewrite get_latest_sessions_map_dom, elem_of_get_engagers. tauto.
Qed.

(** The scenario of the specification: A, B, C are users 1, 2, 3. *)
Lemma status_counts_witness :
  status (db three_creators) 1 = Some (mkStatus (py "http://x/1") 2 2 []) ∧
  status (db three_creators) 2 = Some (mkStatus (py "http://x/b") 0 2 [1; 3]).
Proof.
  destruct (status_counts (db three_creators) 2
              (session_dict
                 (Session.mk 2 2 (py "http://x/b") 102 11 false (Some 7))))
    as (st & Hst & _).
  - reflexivity.
  - split; [reflexivity|]. rewrite Hst. f_equal.
    vm_compute in Hst. by injection Hst as <-.
Defined.

(** ** C5: the users who still have to engage *)

Section non_engaged.
Context (d : Database) (session_map : gmap Z Z) (user_ids : list Z).
Hypothesis keys : ∀ o, o ∈ user_ids → is_Some (session_map !! o).

(** The inner loop finds a missing edge exactly when there is one. *)
Lemma missing_engagement_spec user_id others :
  others ⊆ user_ids →
  ∃ missing,
    missing_engagement d session_map user_id others = Some missing ∧
    (missing = true ↔
     ∃ o sid, o ∈ others ∧ o ≠ user_id ∧ session_map !! o = Some sid ∧
              ¬ edge d user_id sid).
Proof.
  induction others as [|o others IH]; intros Hsub.
  - exists false. split; [done|]. split; [done|].
    intros (o & sid & Ho & _). inversion Ho.
  - destruct IH as (missing & Hloop & Hmissing).
    { intros x Hx. apply Hsub. by right. }
    cbn [missing_engagement]. case_decide as Ho.
    + exists missing. split; [done|]. rewrite Hmissing. split.
      * intros (o' & sid & Ho' & ?). exists o', sid. split; [by right|done].
      * intros (o' & sid & [->|Ho']%elem_of_cons & Hne & ?); [done|].
        by exists o', sid.
    + destruct (keys o) as [sid Hsid]; [apply Hsub; left|]. rewrite Hsid.
      destruct (has_engaged d user_id sid) eqn:Hhas.
      * exists missing. split; [done|]. rewrite Hmissing. split.
        -- intros (o' & sid' & Ho' & ?). exists o', sid'.
           split; [by right|done].
        -- intros (o' & sid' & [->|Ho']%elem_of_cons & Hne & Hlook & Hedge).
           ++ rewrite Hsid in Hlook. injection Hlook as <-.
              by apply has_engaged_edge in Hhas.
           ++ by exists o', sid'.
      * exists true. split; [done|]. split; [|done]. intros _.
        exists o, sid. split; [left|]. split; [done|]. split; [done|].
        by apply has_engaged_no_edge.
Qed.

(** The outer loop keeps, in order, the users with a missing edge. *)
Lemma non_engaged_loop_spec todo :
  ∃ res,
    non_engaged_loop d session_map user_ids todo = Some res ∧
    fst <$> res =
      filter (fun u => missing_engagement d session_map u user_ids = Some true)
             todo ∧
    ∀ u name, (u, name) ∈ res →
              name = default (str_of_int u) (select_username d u).
Proof.
  induction todo as [|u todo IH].
  - exists []. split; [done|]. split; [done|]. intros u name H. inversion H.
  - destruct IH as (res & Hloop & Hfst & Hnames).
    destruct (missing_engagement_spec u user_ids) as (missing & Hm & _);
      [done|].
    cbn [non_engaged_loop]. rewrite Hloop.
    rewrite filter_cons, Hm. destruct missing.
    + eexists. split; [reflexivity|]. split.
      * rewrite decide_True by done. csimpl. by rewrite Hfst.
      * intros v name [[= -> ->]|Hin]%elem_of_cons; [done|]. by apply Hnames.
    + exists res. split; [done|]. split; [|done]. by rewrite decide_False.
Qed.
End non_engaged.

(** C5. [get_non_engaged_users] returns, once each and with their stored
    name, exactly the users who own a session and for whom some other
    user's latest session carries no edge from them. A user with an edge
    to every other owner's latest session is not listed. *)
Theorem get_non_engaged_users_exact d :
  ∃ res,
    get_non_engaged_users d = Some res ∧
    NoDup (fst <$> res) ∧
    (∀ u, u ∈ fst <$> res ↔ non_engaged d u) ∧
    (∀ u, has_session d u →
          (∀ o sid, o ≠ u → is_latest d o sid → edge d u sid) →
          u ∉ fst <$> res) ∧
    ∀ u name, (u, name) ∈ res →
              name = default (str_of_int u) (select_username d u).
Proof.
  unfold get_non_engaged_users.
  assert (∀ o, o ∈ fst <$> latest_session_rows d →
               is_Some (dict_of_rows (latest_session_rows d) !! o)) as Hkeys.
  { intros o ([o' m] & -> & Hin)%list_elem_of_fmap. exists m.
    apply (get_latest_sessions_map_lookup d o' m).
    by apply elem_of_latest_session_rows. }
  destruct (non_engaged_loop_spec d _ _ Hkeys (fst <$> latest_session_rows d))
    as (res & Hloop & Hfst & Hnames).
  assert (∀ u, u ∈ fst <$> res ↔ non_engaged d u) as Hexact.
  { intros u. rewrite Hfst, list_elem_of_filter. unfold non_engaged.
    assert (∀ v, v ∈ fst <$> latest_session_rows d ↔ has_session d v) as Hdom.
    { intros v. rewrite latest_session_groups, elem_of_order_by,
        elem_of_remove_dups. done. }
    rewrite Hdom.
    destruct (missing_engagement_spec d _ _ Hkeys u
                (fst <$> latest_session_rows d)) as (missing & -> & Hspec);
      [done|].
    split.
    - intros [[= ->] Hu]. split; [done|].
      destruct (proj1 Hspec eq_refl) as (o & sid & Ho & Hne & Hlook & Hedge).
      exists o, sid. split; [done|]. split; [|done].
      by apply get_latest_sessions_map_lookup.
    - intros [Hu (o & sid & Hne & Hlatest & Hedge)]. split; [|done].
      f_equal. apply Hspec. exists o, sid. split.
      { apply Hdom. destruct Hlatest as [(s & Hs & <- & _) _].
        by apply list_elem_of_fmap_2. }
      split; [done|]. split; [|done].
      by apply get_latest_sessions_map_lookup. }
  exists res. split; [done|]. split; [|split; [done|split; [|done]]].
  - rewrite Hfst. apply NoDup_filter. apply latest_session_rows_NoDup.
  - intros u Hu Hall [_ (o & sid & Hne & Hlatest & Hedge)]%Hexact.
    by apply Hedge, Hall with o.
Qed.

(** The scenario of the specification: A and B (users 1 and 2) have
    engaged with each other, C (user 3) with nobody. All three are listed
    while nobody has engaged with C; once A and B have, only C is. *)
Example get_non_engaged_users_scenario :
  fmap (M:=list) fst <$> get_non_engaged_users (db mutual) = Some [1; 2; 3] ∧
  fmap (M:=list) fst <$>
    get_non_engaged_users (db (run mutual [react 1 103 20; react 2 103 21]))
  = Some [3].
Proof. by vm_compute. Qed.

(** * Further properties of the store and the listeners *)

(** ** [add_user] *)

Lemma filter_app_singleton_ne {A} (P : A -> Prop) `{∀ x, Decision (P x)}
    (l : list A) (x : A) :
  ¬ P x → filter P (l ++ [x]) = filter P l.
Proof.
  intros Hx. rewrite filter_app, filter_cons, decide_False by done.
  by rewrite filter_nil, app_nil_r.
Qed.

Lemma filter_none {A} (P : A -> Prop) `{∀ x, Decision (P x)} (l : list A) :
  (∀ x, x ∈ l → ¬ P x) → filter P l = [].
Proof.
  induction l as [|x l IH]; intros Hl; [done|].
  rewrite filter_cons, decide_False by (apply Hl; left).
  apply IH. intros y Hy. apply Hl. by right.
Qed.

Lemma users_filter_unregistered d u :
  ¬ registered d u → filter (fun x => User.user_id x = u) (users d) = [].
Proof.
  intros Hreg. apply filter_none. intros x Hx Hid. apply Hreg.
  unfold registered. rewrite <- Hid. by apply list_elem_of_fmap_2.
Qed.

Lemma total_points_of_unregistered d u :
  total_points_of d u = None ↔ ¬ registered d u.
Proof.
  split.
  - intros Hnone Hreg. unfold registered in Hreg.
    apply list_elem_of_fmap in Hreg as (x & -> & Hx).
    unfold total_points_of in Hnone.
    assert (x ∈ filter (fun y => User.user_id y = User.user_id x) (users d))
      as Hin by (by apply list_elem_of_filter).
    by destruct (filter _ (users d)); [inversion Hin|].
  - intros Hreg. unfold total_points_of.
    by rewrite users_filter_unregistered.
Qed.

(** A new row goes between two parts of the table. *)
Lemma insert_user_split row us :
  ∃ pre post, us = pre ++ post ∧ insert_user row us = pre ++ row :: post.
Proof.
  induction us as [|u us (pre & post & Hus & Hins)]; [by exists [], []|].
  cbn [insert_user]. destruct (_ <? _).
  - by exists [], (u :: us).
  - exists (u :: pre), post. by rewrite Hus at 1; rewrite Hins.
Qed.

Lemma insert_user_perm row us : insert_user row us ≡ₚ row :: us.
Proof.
  destruct (insert_user_split row us) as (pre & post & -> & ->).
  by rewrite Permutation_middle.
Qed.

(** Insertion keeps the table in key order. *)
Lemma insert_user_sorted row us :
  User.user_id row ∉ User.user_id <$> us →
  StronglySorted Z.lt (User.user_id <$> us) →
  StronglySorted Z.lt (User.user_id <$> insert_user row us).
Proof.
  induction us as [|u us IH]; intros Hnotin Hsorted.
  { repeat constructor. }
  rewrite fmap_cons in Hnotin, Hsorted.
  apply not_elem_of_cons in Hnotin as [Hne Hnotin].
  apply StronglySorted_inv in Hsorted as [Hsorted Hall].
  cbn [insert_user]. destruct (Z.ltb_spec (User.user_id row) (User.user_id u)).
  - rewrite !fmap_cons. constructor; [by constructor|].
    constructor; [done|]. eapply Forall_impl; [exact Hall|]. simpl. lia.
  - rewrite fmap_cons. constructor; [by apply IH|].
    rewrite insert_user_perm, fmap_cons. constructor; [lia|done].
Qed.

(** The row of [v] after [add_user]. *)
Lemma add_user_row d user_id username now v :
  head (filter (fun u => User.user_id u = v)
               (users (add_user d user_id username now))) =
  if decide (v = user_id)
  then Some (match head (filter (fun u => User.user_id u = user_id) (users d))
             with
             | Some x => set_username username x
             | None => User.mk user_id username 0 now
             end)
  else head (filter (fun u => User.user_id u = v) (users d)).
Proof.
  unfold add_user. cbn [users].
  destruct (decide (user_id ∈ User.user_id <$> users d)) as [Hin|Hnotin].
  - rewrite filter_fmap_stable by (intros x; by case_decide).
    destruct (filter (fun u => User.user_id u = v) (users d))
      as [|z l] eqn:Hfz.
    + case_decide as Hv; [|done]. subst v.
      apply list_elem_of_fmap in Hin as (x & Hx & Hxin).
      assert (x ∈ filter (fun u => User.user_id u = user_id) (users d)) as Hf
        by (by apply list_elem_of_filter).
      rewrite Hfz in Hf. inversion Hf.
    + assert (User.user_id z = v) as Hz.
      { assert (z ∈ z :: l) as Hzin by left. rewrite <- Hfz in Hzin.
        by apply list_elem_of_filter in Hzin as [? _]. }
      simpl. destruct (decide (v = user_id)) as [Hv|Hv].
      * rewrite <- Hv, Hfz. simpl. by rewrite decide_True.
      * by rewrite decide_False by congruence.
  - destruct (insert_user_split (User.mk user_id username 0 now) (users d))
      as (pre & post & Hus & ->).
    rewrite filter_app, filter_cons. cbn [User.user_id].
    case_decide as Hv.
    + subst v. rewrite decide_True by done.
      pose proof (users_filter_unregistered d user_id Hnotin) as Hnil.
      rewrite Hnil. rewrite Hus, filter_app in Hnil.
      by apply app_eq_nil in Hnil as [-> ->].
    + rewrite decide_False by congruence.
      by rewrite Hus, filter_app.
Qed.

Lemma add_user_points_kept d user_id username now v p :
  total_points_of d v = Some p →
  total_points_of (add_user d user_id username now) v = Some p.
Proof.
  unfold total_points_of. rewrite add_user_row. case_decide as Hv; [|done].
  subst v. by destruct (head _).
Qed.

Lemma add_user_username d user_id username now :
  select_username (add_user d user_id username now) user_id = Some username.
Proof.
  unfold select_username. rewrite add_user_row, decide_True by done.
  by destruct (head _).
Qed.

(** X1. [add_user] is an upsert that never touches points: afterwards the
    user has a row carrying the given name; a user who had a row keeps
    its total, a new user starts at 0; every other user's name and total,
    the sessions and the engagements are as before; the primary key of
    [users] is kept, and so is the key order of its rows. *)
Theorem add_user_upsert d user_id username now :
  select_username (add_user d user_id username now) user_id = Some username ∧
  total_points_of (add_user d user_id username now) user_id
    = Some (default 0 (total_points_of d user_id)) ∧
  (∀ v, v ≠ user_id →
        select_username (add_user d user_id username now) v
          = select_username d v ∧
        total_points_of (add_user d user_id username now) v
          = total_points_of d v) ∧
  sessions (add_user d user_id username now) = sessions d ∧
  engagements (add_user d user_id username now) = engagements d ∧
  (users_pk d → users_pk (add_user d user_id username now)) ∧
  (users_in_key_order d →
   users_in_key_order (add_user d user_id username now)).
Proof.
  split; [apply add_user_username|]. split.
  { unfold total_points_of. rewrite add_user_row, decide_True by done.
    by destruct (head _). }
  split.
  { intros v Hv. unfold select_username, total_points_of.
    by rewrite add_user_row, decide_False. }
  split; [done|]. split; [done|].
  assert (∀ us : list User.t,
            User.user_id <$>
              ((fun u => if decide (User.user_id u = user_id)
                         then set_username username u else u) <$> us)
            = User.user_id <$> us) as Hids.
  { intros us. rewrite <- list_fmap_compose.
    apply list_fmap_ext. intros _ u _. simpl. by case_decide. }
  unfold users_pk, users_in_key_order, add_user. cbn [users].
  destruct (decide (user_id ∈ User.user_id <$> users d)) as [Hin|Hnotin].
  - by rewrite Hids.
  - split.
    + intros Hpk. rewrite insert_user_perm, fmap_cons.
      by apply NoDup_cons.
    + by apply insert_user_sorted.
Qed.

(** ** [add_session] *)

Lemma option_eq_lookup {A} (x y : option A) :
  (∀ a, x = Some a ↔ y = Some a) → x = y.
Proof.
  intros H. destruct x as [a|], y as [b|]; try done.
  - symmetry. by apply (H a).
  - symmetry. by apply (H a).
  - by apply (H b).
Qed.

Lemma get_active_session_first d user_id link message_id channel_id now :
  ¬ has_session d user_id →
  get_active_session (add_session d user_id link message_id channel_id now).1
    user_id
  = Some (mkSessionDict (seq_sessions d + 1) link message_id false user_id
            (Some channel_id)).
Proof.
  intros Hnone. unfold get_active_session.
  cbn [fst add_session sessions]. rewrite limit_1_head.
  rewrite filter_app, filter_cons, decide_True by done.
  destruct (filter _ (sessions d)) as [|? ?] eqn:Hf; [done|].
  destruct Hnone. apply has_session_filter. by rewrite Hf.
Qed.

(** X2. [add_session] on a store whose session keys came from the
    counter: the returned [lastrowid] is one more than the counter and
    greater than every stored key, the primary key is kept, the new row is
    the owner's latest session, nobody else's latest session moves, and
    [users] and [engagements] are untouched. A user without a session gets
    the new row as active session. *)
Theorem add_session_fresh d user_id link message_id channel_id now :
  sessions_pk d → sessions_below_seq d →
  (add_session d user_id link message_id channel_id now).2
    = seq_sessions d + 1 ∧
  (∀ s, s ∈ sessions d →
        Session.session_id s
          < (add_session d user_id link message_id channel_id now).2) ∧
  sessions_pk (add_session d user_id link message_id channel_id now).1 ∧
  sessions_below_seq (add_session d user_id link message_id channel_id now).1 ∧
  get_latest_sessions_map
    (add_session d user_id link message_id channel_id now).1 !! user_id
    = Some (seq_sessions d + 1) ∧
  (∀ v, v ≠ user_id →
        get_latest_sessions_map
          (add_session d user_id link message_id channel_id now).1 !! v
        = get_latest_sessions_map d !! v) ∧
  (¬ has_session d user_id →
   get_active_session
     (add_session d user_id link message_id channel_id now).1 user_id
   = Some (mkSessionDict (seq_sessions d + 1) link message_id false user_id
             (Some channel_id))) ∧
  users (add_session d user_id link message_id channel_id now).1 = users d ∧
  engagements (add_session d user_id link message_id channel_id now).1
    = engagements d.
Proof.
  intros Hpk Hseq. unfold sessions_below_seq in *.
  rewrite Forall_forall in Hseq.
  split; [done|]. split.
  { intros s Hs. specialize (Hseq s Hs). simpl. lia. }
  split.
  { unfold sessions_pk. cbn [fst add_session sessions].
    rewrite fmap_app. apply NoDup_app. split; [done|]. split.
    - intros x (s & -> & Hs)%list_elem_of_fmap Hx%list_elem_of_singleton.
      simpl in Hx. specialize (Hseq s Hs). lia.
    - apply NoDup_singleton. }
  split.
  { cbn [fst add_session sessions seq_sessions]. apply Forall_app. split.
    - apply Forall_forall. intros s Hs. specialize (Hseq s Hs). lia.
    - apply Forall_singleton. simpl. lia. }
  split.
  { apply get_latest_sessions_map_lookup. split.
    - eexists. split; [apply elem_of_app; right; left|]. done.
    - cbn [fst add_session sessions].
      intros s [Hs|Hs]%elem_of_app _.
      + specialize (Hseq s Hs). lia.
      + apply list_elem_of_singleton in Hs as ->. simpl. lia. }
  split.
  { intros v Hv. apply option_eq_lookup. intros m.
    rewrite !get_latest_sessions_map_lookup. unfold is_latest.
    cbn [fst add_session sessions]. split.
    - intros [(s & [Hs|Hs]%elem_of_app & Hu & Hid) Hle].
      2:{ apply list_elem_of_singleton in Hs as ->. done. }
      split; [by exists s|]. intros s' Hs' Hu'. apply Hle; [|done].
      apply elem_of_app. by left.
    - intros [(s & Hs & Hu & Hid) Hle]. split.
      + exists s. split; [apply elem_of_app; by left|done].
      + intros s' [Hs'|Hs']%elem_of_app Hu'; [by apply Hle|].
        apply list_elem_of_singleton in Hs' as ->. done. }
  split; [apply get_active_session_first|done].
Qed.

Lemma add_session_fresh_witness :
  get_latest_sessions_map
    (add_session (db three_creators) 4 (py "http://x/d") 104 7 30).1 !! 4
  = Some 4.
Proof.
  destruct (add_session_fresh (db three_creators) 4 (py "http://x/d") 104 7 30)
    as (_ & _ & _ & _ & Hlatest & _).
  - unfold sessions_pk. apply (bool_decide_unpack _). vm_compute. exact I.
  - unfold sessions_below_seq. apply (bool_decide_unpack _). vm_compute. exact I.
  - exact Hlatest.
Defined.

(** ** [on_message] *)

(** The store after [on_message], case by case. *)
Lemma on_message_cases bot message :
  on_message bot message = (bot, (on_message bot message).2) ∧
    (∀ sid, (on_message bot message).2 ≠ Submitted sid) ∧
    (on_message bot message).2 ≠ SendFailed
  ∨
  ¬ has_session (db bot) (m_author_id message) ∧
  m_author_bot message = false ∧
  channel_blocked bot (m_channel_id message) = false ∧
  ∃ link,
    first_url (m_content message) = Some link ∧
    (m_formatted_msg message = None ∧
     on_message bot message =
       (with_db bot (add_user (db bot) (m_author_id message)
                       (m_display_name message) (m_user_now message)),
        SendFailed)
     ∨
     ∃ formatted_msg_id,
       m_formatted_msg message = Some formatted_msg_id ∧
       on_message bot message =
         (with_db bot
            (add_session
               (add_user (db bot) (m_author_id message)
                  (m_display_name message) (m_user_now message))
               (m_author_id message) link formatted_msg_id
               (m_channel_id message) (m_session_now message)).1,
          Submitted (seq_sessions (db bot) + 1))).
Proof.
  unfold on_message.
  destruct (m_author_bot message); [by left|].
  destruct (channel_blocked _ _); [by left|].
  destruct (first_url _) as [link|]; [|by left].
  destruct (get_active_session _ _) eqn:Hget; [by left|].
  apply get_active_session_None in Hget.
  right. repeat split; [done|]. exists link. split; [done|].
  destruct (m_formatted_msg message) as [fid|]; [right|by left].
  by exists fid.
Qed.

(** X3. Along every run of the bot that starts with at most one session
    row per user, every user keeps at most one session row; so the active
    session that [get_active_session] picks by timestamp is also the
    latest one by key, the one [get_latest_sessions_map] reports. *)
Theorem one_session_each_run bot events :
  one_session_each (db bot) →
  one_session_each (db (run bot events)) ∧
  ∀ user_id session,
    get_active_session (db (run bot events)) user_id = Some session →
    get_latest_sessions_map (db (run bot events)) !! user_id
      = Some (d_session_id session).
Proof.
  intros Hone.
  assert (one_session_each (db (run bot events))) as Hrun.
  { revert bot Hone. induction events as [|e events IH]; intros bot Hone;
      [done|].
    apply IH.
    pose proof (handle_config_tables bot e) as Hcfg.
    destruct e as [message|payload|cmd|administrator deferred| | |];
      try (destruct Hcfg as (_ & Hs & _); unfold one_session_each;
           by rewrite Hs).
    - unfold handle.
      destruct (on_message_cases bot message)
        as [[-> _]|(Hnone & _ & _ & link & _ & [[_ ->]|(fid & _ & ->)])];
        [done..|].
      unfold one_session_each. cbn [fst db with_db add_session sessions].
      rewrite fmap_app. apply NoDup_app. split; [done|]. split.
      + intros x Hx ->%list_elem_of_singleton. by apply Hnone.
      + apply NoDup_singleton.
    - unfold handle.
      destruct (on_raw_reaction_add_cases bot payload)
        as [[-> _]|(session & _ & _ & ->)]; [done|].
      unfold one_session_each, record, add_engagement.
      by destruct (has_engaged _ _ _).
    - unfold handle.
      destruct (change_link bot cmd) as [bot' out] eqn:Hchange.
      destruct (change_link_failure_frame _ _ _ _ Hchange) as [->|[log ->]];
        [done|].
      apply change_link_updated in Hchange as (session & _ & -> & _).
      unfold one_session_each. cbn [fst db with_db].
      rewrite update_link_sessions, <- list_fmap_compose.
      erewrite list_fmap_ext; [exact Hone|]. intros _ s _. simpl.
      by case_decide.
    - destruct administrator, deferred; [apply NoDup_nil_2|done..]. }
  split; [done|]. intros user_id session Hget.
  apply get_latest_sessions_map_lookup.
  destruct (get_active_session_row _ _ _ Hget) as (row & Hin & -> & Hu & _).
  split; [by exists row|]. intros s Hs Hsu.
  assert (s = row) as ->; [|done].
  eapply NoDup_fmap_eq; [exact Hrun|done..|congruence].
Qed.

Lemma one_session_each_run_witness :
  get_latest_sessions_map (db three_creators) !! 2 = Some 2.
Proof.
  destruct (one_session_each_run sample_bot
    [post 1 101 10 "my video http://x/1"; post 2 102 11 "http://x/b";
     post 3 103 12 "http://x/c"; react 2 101 13; react 3 101 14])
    as [_ Hlatest].
  - apply NoDup_nil_2.
  - apply (Hlatest 2
      (session_dict (Session.mk 2 2 (py "http://x/b") 102 11 false (Some 7)))).
    reflexivity.
Defined.

(** ** The link of a message *)

Lemma url_items_eq :
  url_items =
  [Lit 104; Lit 116; Lit 116; Lit 112; OptLit 115; Lit 58; Lit 47; Lit 47;
   Plus not_space]%N.
Proof. reflexivity. Qed.

(** A greedy [\S+] at the end of a pattern takes the whole run. *)
Lemma plus_end_sound s r :
  plus_loop not_space (re_match []) s = Some r →
  ∃ body, body ≠ [] ∧ Forall (fun c => is_space c = false) body ∧
          s = body ++ r ∧
          (r = [] ∨ ∃ c r', r = c :: r' ∧ is_space c = true).
Proof.
  revert r. induction s as [|c s IH]; intros r; [done|].
  cbn [plus_loop]. unfold not_space at 1.
  destruct (is_space c) eqn:Hc; cbn [negb]; [done|].
  destruct (plus_loop not_space (re_match []) s) as [r'|] eqn:Hloop.
  - intros [= <-]. destruct (IH r' eq_refl) as (body & Hne & Hall & -> & Hr).
    exists (c :: body). repeat split; [done| |done]. by apply Forall_cons.
  - cbn [re_match]. intros [= <-]. exists [c].
    repeat split; [done|by apply Forall_singleton|].
    destruct s as [|c' s']; [by left|]. right. exists c', s'. split; [done|].
    cbn [plus_loop] in Hloop. unfold not_space at 1 in Hloop.
    destruct (is_space c'); [done|]. cbn [negb] in Hloop.
    by destruct (plus_loop not_space (re_match []) s').
Qed.

Lemma plus_end_some body x :
  body ≠ [] → Forall (fun c => is_space c = false) body →
  is_Some (plus_loop not_space (re_match []) (body ++ x)).
Proof.
  intros Hne Hall. induction body as [|c body IH]; [done|].
  apply Forall_cons in Hall as [Hc Hall].
  change ((c :: body) ++ x) with (c :: (body ++ x)).
  cbn [plus_loop]. unfold not_space at 1. rewrite Hc. cbn [negb].
  by destruct (plus_loop not_space (re_match []) (body ++ x)).
Qed.

Lemma scheme_no_space scheme :
  scheme = py "http://" ∨ scheme = py "https://" →
  Forall (fun c => is_space c = false) scheme.
Proof. intros [-> | ->]; repeat constructor. Qed.

(** [https?://\S+] at the head of [s]: the match is the scheme and the
    whole run of characters up to the next white space. *)
Lemma re_match_url_items_sound s rest :
  re_match url_items s = Some rest →
  ∃ link, s = link ++ rest ∧ url_shaped link ∧
          Forall (fun c => is_space c = false) link ∧
          (rest = [] ∨ ∃ c r', rest = c :: r' ∧ is_space c = true).
Proof.
  rewrite url_items_eq. intros Hr.
  do 4 apply re_match_lit in Hr as (? & -> & Hr).
  apply re_match_optlit in Hr as [(? & -> & Hr)|Hr];
    do 3 apply re_match_lit in Hr as (? & -> & Hr);
    apply plus_end_sound in Hr as (body & Hne & Hall & -> & Hrest).
  - exists (py "https://" ++ body). split; [reflexivity|]. split.
    + exists (py "https://"), body, []. rewrite app_nil_r.
      repeat split; auto.
    + split; [|done]. apply Forall_app. split; [|done].
      apply scheme_no_space. by right.
  - exists (py "http://" ++ body). split; [reflexivity|]. split.
    + exists (py "http://"), body, []. rewrite app_nil_r.
      repeat split; auto.
    + split; [|done]. apply Forall_app. split; [|done].
      apply scheme_no_space. by left.
Qed.

Lemma re_match_url_items_some l r :
  url_shaped l → is_Some (re_match url_items (l ++ r)).
Proof.
  intros (scheme & body & tail & -> & Hscheme & Hne & Hall & _).
  rewrite url_items_eq, <- !app_assoc.
  destruct (plus_end_some body (tail ++ r) Hne Hall) as [x Hx].
  exists x. destruct Hscheme as [-> | ->].
  - change (py "http://" ++ body ++ tail ++ r)
      with (104 :: 116 :: 116 :: 112 :: 58 :: 47 :: 47 :: body ++ tail ++ r)%N.
    rewrite !re_match_lit_eq, re_match_optlit_skip by done.
    by rewrite !re_match_lit_eq.
  - change (py "https://" ++ body ++ tail ++ r)
      with (104 :: 116 :: 116 :: 112 :: 115 :: 58 :: 47 :: 47
            :: body ++ tail ++ r)%N.
    rewrite !re_match_lit_eq. apply re_match_optlit_take.
    by rewrite !re_match_lit_eq.
Qed.

(** X4. [first_url], the link [on_message] takes from a message. When it
    finds one, the link is a piece of the content that contains no white
    space, that [change_link] would accept as a new link, that runs up to
    the next white space or the end of the message, and before whose
    start no accepted link begins. When it finds none, no piece of the
    content would be accepted by [change_link]. *)
Theorem first_url_spec content :
  match first_url content with
  | Some link =>
      url_pattern_match link = true ∧
      Forall (fun c => is_space c = false) link ∧
      ∃ pre post,
        content = pre ++ link ++ post ∧
        (post = [] ∨ ∃ c post', post = c :: post' ∧ is_space c = true) ∧
        ∀ pre1 s l r, pre = pre1 ++ s → s ≠ [] →
                      s ++ link ++ post = l ++ r →
                      url_pattern_match l = false
  | None =>
      ∀ pre l r, content = pre ++ l ++ r → url_pattern_match l = false
  end.
Proof.
  assert (∀ s, re_match url_items s = None →
               ∀ l r, s = l ++ r → url_pattern_match l = false) as Hnone.
  { intros s Hs l r ->.
    destruct (url_pattern_match l) eqn:Hl; [|done].
    apply url_pattern_match_shaped in Hl.
    destruct (re_match_url_items_some l r Hl) as [x Hx]. congruence. }
  induction content as [|c content IH].
  - simpl. intros pre l r Heq.
    destruct pre; [|done]. destruct l; [|done]. done.
  - cbn [first_url].
    destruct (re_match url_items (c :: content)) as [rest|] eqn:Hhead.
    + apply re_match_url_items_sound in Hhead
        as (link & Hcontent & Hshape & Hall & Hrest).
      rewrite Hcontent, length_app, Nat.add_sub, take_app_length.
      split; [by apply url_pattern_match_shaped|]. split; [done|].
      exists [], rest. repeat split; [done|].
      intros pre1 s l r Hpre Hs. by destruct pre1, s.
    + destruct (first_url content) as [link|].
      * destruct IH as (Hmatch & Hall & pre & post & -> & Hpost & Hleft).
        split; [done|]. split; [done|].
        exists (c :: pre), post. repeat split; [done|].
        intros pre1 s l r Hpre Hs Heq. destruct pre1 as [|c1 pre1].
        -- simpl in Hpre. subst s. by apply (Hnone _ Hhead l r).
        -- injection Hpre as -> ->. by apply (Hleft pre1 s l r).
      * intros pre l r Heq. destruct pre as [|c1 pre].
        -- by apply (Hnone _ Hhead l r).
        -- injection Heq as -> ->. by apply (IH pre l r).
Qed.

Lemma first_url_accepted content link :
  first_url content = Some link → url_pattern_match link = true.
Proof.
  induction content as [|c content IH]; [done|].
  cbn [first_url].
  destruct (re_match url_items (c :: content)) as [rest|] eqn:Hhead; [|done].
  apply re_match_url_items_sound in Hhead as (l & Hcontent & Hshape & _).
  rewrite Hcontent, length_app, Nat.add_sub, take_app_length.
  intros [= <-]. by apply url_pattern_match_shaped.
Qed.

(** The one-link rule rests on the check of [on_message] alone: the
    [sessions] table declares no UNIQUE constraint on [user_id], and the
    listener awaits the store and the platform between its check and its
    INSERT. If two posts of one author both pass the check before either
    is saved, both rows are stored, and the row saved last is not the
    active session when both carry the same timestamp. *)
Example unguarded_posts_duplicate :
  get_active_session empty_db 1 = None ∧
  sessions
    (add_session
       (add_session
          (add_user (add_user empty_db 1 (py "creator") 10) 1 (py "creator") 10)
          1 (py "http://x/1") 101 7 10).1
       1 (py "http://x/2") 102 7 10).1
  = [Session.mk 1 1 (py "http://x/1") 101 10 false (Some 7);
     Session.mk 2 1 (py "http://x/2") 102 10 false (Some 7)] ∧
  d_session_id <$>
    get_active_session
      (add_session
         (add_session
            (add_user (add_user empty_db 1 (py "creator") 10) 1 (py "creator") 10)
            1 (py "http://x/1") 101 7 10).1
         1 (py "http://x/2") 102 7 10).1 1
  = Some 1.
Proof. repeat split. Qed.

(** X5. A submission that [on_message] accepts while no other listener
    or command runs between its duplicate check and its [add_session]
    (sequential handling): the author owned no session; exactly one row
    is appended to [sessions], keyed by the next counter value and
    carrying the first link of the message, the id of the embed message
    and the channel; it is the author's active session; the author has a
    row in [users] under the display name; the stored link is one
    [change_link] would accept; no edge and no point total of an existing
    user changes. *)
Theorem on_message_submitted bot message bot' sid :
  on_message bot message = (bot', Submitted sid) →
  ¬ has_session (db bot) (m_author_id message) ∧
  sid = seq_sessions (db bot) + 1 ∧
  ∃ link formatted_msg_id,
    first_url (m_content message) = Some link ∧
    m_formatted_msg message = Some formatted_msg_id ∧
    url_pattern_match link = true ∧
    sessions (db bot') =
      sessions (db bot) ++
      [Session.mk sid (m_author_id message) link formatted_msg_id
         (m_session_now message) false (Some (m_channel_id message))] ∧
    get_active_session (db bot') (m_author_id message) =
      Some (mkSessionDict sid link formatted_msg_id false
              (m_author_id message) (Some (m_channel_id message))) ∧
    select_username (db bot') (m_author_id message)
      = Some (m_display_name message) ∧
    engagements (db bot') = engagements (db bot) ∧
    ∀ v p, total_points_of (db bot) v = Some p →
           total_points_of (db bot') v = Some p.
Proof.
  intros Hsub.
  destruct (on_message_cases bot message)
    as [(_ & Hout & _)|(Hnone & _ & _ & link & Hlink &
                        [[_ Heq]|(fid & Hfid & Heq)])].
  - rewrite Hsub in Hout. by destruct (Hout sid).
  - by rewrite Heq in Hsub.
  - rewrite Heq in Hsub. injection Hsub as <- <-.
    split; [done|]. split; [done|]. exists link, fid.
    split; [done|]. split; [done|].
    split; [by apply first_url_accepted with (m_content message)|].
    split; [done|]. split.
    { cbn [db with_db]. apply get_active_session_first. done. }
    split; [apply add_user_username|]. split; [done|].
    intros v p Hp. by apply add_user_points_kept.
Qed.

Lemma on_message_submitted_witness :
  get_active_session
    (db (on_message three_creators (message_of 4 104 30 "see http://x/d now")).1)
    4
  = Some (mkSessionDict 4 (py "http://x/d") 104 false 4 (Some 7)).
Proof.
  destruct (on_message_submitted three_creators
              (message_of 4 104 30 "see http://x/d now")
              (on_message three_creators
                 (message_of 4 104 30 "see http://x/d now")).1 4)
    as (_ & _ & link & fid & Hlink & Hfid & _ & _ & Hget & _).
  - vm_compute. reflexivity.
  - vm_compute in Hlink, Hfid. injection Hlink as <-. injection Hfid as <-.
    exact Hget.
Defined.

(** Without a reset, handling an event only appends to the owners
    column of [sessions]. *)
Lemma handle_owners bot e :
  is_reset e = false →
  ∃ new, Session.user_id <$> sessions (db (handle bot e))
         = (Session.user_id <$> sessions (db bot)) ++ new.
Proof.
  intros Hreset.
  pose proof (handle_config_tables bot e) as Hcfg.
  destruct e as [message|payload|cmd|administrator deferred| | |];
    try (destruct Hcfg as (_ & Hs & _); exists []; by rewrite Hs, app_nil_r).
  - unfold handle.
    destruct (on_message_cases bot message)
      as [[-> _]|(_ & _ & _ & link & _ & [[_ ->]|(fid & _ & ->)])].
    + exists []. by rewrite app_nil_r.
    + exists []. by rewrite app_nil_r.
    + exists [m_author_id message].
      cbn [fst db with_db add_session sessions]. by rewrite fmap_app.
  - unfold handle.
    destruct (on_raw_reaction_add_cases bot payload)
      as [[-> _]|(session & _ & _ & ->)].
    + exists []. by rewrite app_nil_r.
    + exists []. rewrite app_nil_r. unfold record, add_engagement.
      by destruct (has_engaged _ _ _).
  - unfold handle. exists []. rewrite app_nil_r.
    destruct (change_link bot cmd) as [bot' out] eqn:Hchange.
    destruct (change_link_failure_frame _ _ _ _ Hchange) as [->|[log ->]];
      [done|].
    apply change_link_updated in Hchange as (session & _ & -> & _).
    cbn [fst db with_db].
    rewrite update_link_sessions, <- list_fmap_compose.
    apply list_fmap_ext. intros _ s _. simpl. by case_decide.
  - exists []. rewrite app_nil_r. simpl in Hreset.
    by destruct administrator, deferred.
Qed.

(** A user who owns a session keeps owning one until a reset. *)
Lemma has_session_run bot events user_id :
  Forall (fun e => is_reset e = false) events →
  has_session (db bot) user_id → has_session (db (run bot events)) user_id.
Proof.
  revert bot. induction events as [|e events IH]; intros bot Hev Hhas;
    [done|].
  apply Forall_cons in Hev as [He Hev]. apply IH; [done|].
  destruct (handle_owners bot e He) as [new Hnew].
  unfold has_session. rewrite Hnew. apply elem_of_app. by left.
Qed.

(** X6. One link per round, for sequential handling: once a post of a
    user was accepted, then after any further events among which no
    reset took effect, every message of that user is turned away without
    touching the bot, whatever it contains: ignored, answered "post only
    links", or answered "only 1 link per session". *)
Theorem on_message_second_post bot message bot1 sid events message' :
  on_message bot message = (bot1, Submitted sid) →
  Forall (fun e => is_reset e = false) events →
  m_author_id message' = m_author_id message →
  (on_message (run bot1 events) message').1 = run bot1 events ∧
  ((on_message (run bot1 events) message').2 = MessageIgnored ∨
   (on_message (run bot1 events) message').2 = NoLink ∨
   (on_message (run bot1 events) message').2 = DuplicateSubmission).
Proof.
  intros Hsub Hev Hauthor.
  assert (has_session (db bot1) (m_author_id message')) as Hhas.
  { destruct (on_message_cases bot message)
      as [(_ & Hout & _)|(_ & _ & _ & link & _ & [[_ Heq]|(fid & _ & Heq)])].
    - rewrite Hsub in Hout. by destruct (Hout sid).
    - by rewrite Heq in Hsub.
    - rewrite Heq in Hsub. injection Hsub as <- _.
      unfold has_session. cbn [fst db with_db add_session sessions].
      rewrite fmap_app, Hauthor. apply elem_of_app. right. left. }
  apply (has_session_run bot1 events _ Hev) in Hhas.
  unfold on_message.
  destruct (m_author_bot message'); [auto|].
  destruct (channel_blocked _ _); [auto|].
  destruct (first_url _); [|auto].
  destruct (get_active_session _ _) eqn:Hget; [auto|].
  by apply get_active_session_None in Hget.
Qed.

Lemma on_message_second_post_witness :
  (on_message three_creators (message_of 1 105 40 "http://x/again")).1
  = three_creators.
Proof.
  destruct (on_message_second_post sample_bot
              (message_of 1 101 10 "my video http://x/1")
              (on_message sample_bot
                 (message_of 1 101 10 "my video http://x/1")).1 1
              [post 2 102 11 "http://x/b"; post 3 103 12 "http://x/c";
               react 2 101 13; react 3 101 14]
              (message_of 1 105 40 "http://x/again")) as [Hbot _].
  - vm_compute. reflexivity.
  - repeat constructor.
  - vm_compute. reflexivity.
  - vm_compute in Hbot. vm_compute. exact Hbot.
Defined.

(** ** Reset and the next round *)

(** X7. After a reset that an administrator confirmed and whose
    interaction was deferred, everybody can post again: a message handled
    after the reset has finished, with a link, from a human author, in an
    allowed channel and whose embed is sent, is accepted whoever the
    author is; when the session keys stored before the reset came from
    the counter, the new key is greater than each of them, and the new
    row is the only one in [sessions]. A confirmation by somebody who is
    no administrator, or one whose defer raises, changes nothing. *)
Theorem post_after_reset bot message link formatted_msg_id :
  sessions_below_seq (db bot) →
  m_author_bot message = false →
  channel_blocked bot (m_channel_id message) = false →
  first_url (m_content message) = Some link →
  m_formatted_msg message = Some formatted_msg_id →
  (on_message (confirm_button bot true true) message).2
    = Submitted (seq_sessions (db bot) + 1) ∧
  (∀ s, s ∈ sessions (db bot) →
        Session.session_id s < seq_sessions (db bot) + 1) ∧
  sessions (db (on_message (confirm_button bot true true) message).1) =
    [Session.mk (seq_sessions (db bot) + 1) (m_author_id message) link
       formatted_msg_id (m_session_now message) false
       (Some (m_channel_id message))] ∧
  (∀ deferred, confirm_button bot false deferred = bot) ∧
  (∀ administrator, confirm_button bot administrator false = bot).
Proof.
  intros Hseq Hbot Hblocked Hlink Hfid.
  unfold on_message, confirm_button.
  rewrite Hbot. cbn [negb db with_db allowed_channel_ids].
  assert (channel_blocked (with_db bot (reset_all_sessions (db bot)))
            (m_channel_id message) = false) as -> by done.
  rewrite Hlink, Hfid. cbn [db with_db].
  unfold sessions_below_seq in Hseq. rewrite Forall_forall in Hseq.
  split; [done|]. split.
  { intros s Hs. specialize (Hseq s Hs). lia. }
  split; [done|]. split; [done|]. by intros [].
Qed.

Lemma post_after_reset_witness :
  (on_message (confirm_button three_creators true true)
     (message_of 1 110 50 "http://x/new")).2 = Submitted 4.
Proof.
  destruct (post_after_reset three_creators
              (message_of 1 110 50 "http://x/new") (py "http://x/new") 110)
    as [Hout _].
  - unfold sessions_below_seq. apply (bool_decide_unpack _). vm_compute. exact I.
  - vm_compute. reflexivity.
  - vm_compute. reflexivity.
  - vm_compute. reflexivity.
  - vm_compute. reflexivity.
  - exact Hout.
Defined.

(** ** Points along a run *)

Lemma on_message_points_kept bot message v p :
  total_points_of (db bot) v = Some p →
  total_points_of (db (on_message bot message).1) v = Some p.
Proof.
  intros Hp.
  destruct (on_message_cases bot message)
    as [[-> _]|(_ & _ & _ & link & _ & [[_ ->]|(fid & _ & ->)])]; [done|..].
  - by apply add_user_points_kept.
  - cbn [fst db with_db]. unfold total_points_of. cbn [add_session fst users].
    by apply add_user_points_kept.
Qed.

(** One event moves the total of a registered user by nothing, or by one
    when the event is a reaction that user sent. *)
Lemma handle_points bot e v p :
  total_points_of (db bot) v = Some p →
  ∃ p', total_points_of (db (handle bot e)) v = Some p' ∧
        p <= p' ∧
        p' <= p + (if is_reaction_by v e then 1 else 0).
Proof.
  intros Hp.
  pose proof (handle_config_tables bot e) as Hcfg.
  destruct e as [message|payload|cmd|administrator deferred| | |];
    try (destruct Hcfg as (Hu & _); exists p; unfold total_points_of;
         rewrite Hu; split; [done|simpl; lia]).
  - exists p. split; [by apply on_message_points_kept|simpl; lia].
  - unfold handle.
    destruct (on_raw_reaction_add_cases bot payload)
      as [[-> _]|(session & _ & _ & ->)].
    + exists p. split; [done|]. simpl. case_bool_decide; lia.
    + cbn [fst db with_db]. rewrite record_points, Hp. simpl.
      eexists. split; [reflexivity|].
      case_decide as Hv.
      * rewrite bool_decide_eq_true_2 by done. lia.
      * case_bool_decide; lia.
  - exists p. split; [|simpl; lia]. unfold handle.
    destruct (change_link bot cmd) as [bot' out] eqn:Hchange.
    destruct (change_link_failure_frame _ _ _ _ Hchange) as [->|[log ->]];
      [done|].
    by apply change_link_updated in Hchange as (session & _ & -> & _).
  - exists p. split; [|simpl; lia]. by destruct administrator, deferred.
Qed.

(** X8. Points along a run: a user who has a row in [users] keeps a
    row, the total never goes down (not even across a reset), and it
    grows by at most the number of reactions that user sent during the
    run. *)
Theorem points_along_run bot events v p :
  total_points_of (db bot) v = Some p →
  ∃ p', total_points_of (db (run bot events)) v = Some p' ∧
        p <= p' ∧ p' <= p + Z.of_nat (reactions_by v events).
Proof.
  revert bot p. induction events as [|e events IH]; intros bot p Hp.
  - exists p. split; [done|]. unfold reactions_by. simpl. lia.
  - destruct (handle_points bot e v p Hp) as (p1 & Hp1 & Hle1 & Hup1).
    destruct (IH (handle bot e) p1 Hp1) as (p' & Hp' & Hle & Hup).
    exists p'. split; [done|]. split; [lia|].
    unfold reactions_by in *. rewrite filter_cons.
    destruct (is_reaction_by v e) eqn:He.
    + rewrite decide_True by done. simpl length. lia.
    + rewrite decide_False by done. lia.
Qed.

Lemma points_along_run_witness :
  ∃ p', total_points_of (db mutual) 1 = Some p' ∧ 0 <= p' ∧ p' <= 0 + 1.
Proof.
  destruct (points_along_run one_creator
              [post 2 102 11 "http://x/b"; post 3 103 12 "http://x/c";
               react 1 102 13; react 2 101 14] 1 0)
    as (p' & Hp' & Hle & Hup).
  - vm_compute. reflexivity.
  - exists p'. split; [|split; [exact Hle|exact Hup]].
    rewrite <- Hp'. reflexivity.
Defined.

(** ** A recorded reaction *)

Lemma find_owner_session_member d guild_members message_id session :
  find_owner_session d guild_members message_id = Some session →
  d_user_id session ∈ guild_members ∧
  get_active_session d (d_user_id session) = Some session ∧
  d_message_id session = message_id.
Proof.
  induction guild_members as [|u rest IH]; simpl; [done|].
  destruct (get_active_session d u) as [s|] eqn:Hget.
  - case_decide as Hmsg.
    + intros [= <-].
      destruct (get_active_session_row _ _ _ Hget) as (row & _ & -> & Hu & _).
      cbn [d_user_id session_dict]. rewrite Hu.
      split; [left|]. split; [exact Hget|exact Hmsg].
    + intros H. destruct (IH H) as (? & ? & ?). split; [by right|done].
  - intros H. destruct (IH H) as (? & ? & ?). split; [by right|done].
Qed.

(** X9. What a recorded reaction does. The message reacted to is the
    message of the active session of one of the fetched guild members,
    who is not the reactor; exactly one row is appended to [engagements],
    from the reactor to that session, stamped with the time of the call;
    [sessions] is untouched; the reactor's total grows by one when the
    reactor has a row in [users] and nobody else's total moves. *)
Theorem reaction_recorded bot payload bot' :
  on_raw_reaction_add bot payload = (bot', Recorded) →
  ∃ session guild_members,
    r_guild_members payload = Some guild_members ∧
    d_user_id session ∈ guild_members ∧
    d_user_id session ≠ r_user_id payload ∧
    get_active_session (db bot) (d_user_id session) = Some session ∧
    d_message_id session = r_message_id payload ∧
    ¬ edge (db bot) (r_user_id payload) (d_session_id session) ∧
    engagements (db bot') =
      engagements (db bot) ++
      [Engagement.mk (seq_engagements (db bot) + 1) (r_user_id payload)
         (d_session_id session) (r_now payload)] ∧
    sessions (db bot') = sessions (db bot) ∧
    ∀ v, total_points_of (db bot') v =
         (fun p => if decide (v = r_user_id payload) then p + 1 else p) <$>
         total_points_of (db bot) v.
Proof.
  intros Hrec.
  destruct (on_raw_reaction_add_cases bot payload)
    as [[_ Hout]|(session & Hres & Hhas & Heq)].
  { by rewrite Hrec in Hout. }
  rewrite Heq in Hrec. injection Hrec as <-.
  destruct Hres as (_ & _ & _ & _ & _ & (gm & Hgm & Hfind) & Hself & _).
  apply find_owner_session_member in Hfind as (Hmember & Hactive & Hmsg).
  exists session, gm. repeat split; try done.
  - by apply has_engaged_no_edge.
  - cbn [db with_db]. unfold record. by rewrite add_engagement_new.
  - cbn [db with_db]. unfold record. by rewrite add_engagement_new.
  - intros v. cbn [db with_db]. apply record_points.
Qed.

Lemma reaction_recorded_witness :
  ∃ bot', on_raw_reaction_add three_creators (react_at 1 102 20)
          = (bot', Recorded) ∧
          edge_pair <$> engagements (db bot') = [(2, 1); (3, 1); (1, 2)].
Proof.
  eexists. split; [vm_compute; reflexivity|].
  destruct (reaction_recorded three_creators (react_at 1 102 20)
              (on_raw_reaction_add three_creators (react_at 1 102 20)).1)
    as (session & gm & _ & _ & _ & _ & _ & _ & Heng & _).
  - vm_compute. reflexivity.
  - vm_compute. reflexivity.
Defined.

(** X10. The part of the engagement rule that holds for sequential
    handling, where every listener finishes before the next event is
    handled: along such a run edges stay unique per (engager, session);
    when a reaction of an engager who has a row in [users] is recorded,
    that engager's total grows by exactly one, and the same reaction
    delivered afterwards is answered "already engaged" and changes
    nothing. (Two deliveries handled at the same time can both pass the
    check: [unguarded_inserts_duplicate].) *)
Theorem registered_engager_one_point bot events payload bot1 now p :
  unique_edges (db bot) →
  on_raw_reaction_add (run bot events) payload = (bot1, Recorded) →
  total_points_of (db (run bot events)) (r_user_id payload) = Some p →
  unique_edges (db bot1) ∧
  total_points_of (db bot1) (r_user_id payload) = Some (p + 1) ∧
  on_raw_reaction_add bot1 (redelivered payload now) = (bot1, AlreadyEngaged).
Proof.
  intros Huniq Hrec Hp.
  destruct (recorded_once bot events payload bot1 now p Huniq Hrec Hp)
    as (Hu & Hagain & Hpoints).
  by repeat split.
Qed.

Lemma registered_engager_one_point_witness :
  total_points_of
    (db (on_raw_reaction_add three_creators (react_at 1 102 20)).1) 1
  = Some 1.
Proof.
  destruct (registered_engager_one_point sample_bot
    [post 1 101 10 "my video http://x/1"; post 2 102 11 "http://x/b";
     post 3 103 12 "http://x/c"; react 2 101 13; react 3 101 14]
    (react_at 1 102 20)
    (on_raw_reaction_add three_creators (react_at 1 102 20)).1 21 0)
    as (_ & Hp & _).
  - apply NoDup_nil_2.
  - vm_compute. reflexivity.
  - vm_compute. reflexivity.
  - exact Hp.
Defined.

(** ** [set_yap_channel] *)


(** ** [status]: the numbers add up *)

Lemma NoDup_same_length (l k : list Z) :
  NoDup l → NoDup k → (∀ x, x ∈ l ↔ x ∈ k) → length l = length k.
Proof.
  intros Hl Hk Heq. apply Permutation_length. by apply NoDup_Permutation.
Qed.

(** X12. In every status report the engaged count and the pending list
    split the required count: engaged count plus the number of pending
    users is the required count, so the report shows everybody engaged
    (count equal to required) exactly when the pending list is empty. *)
Theorem status_adds_up d user_id st :
  status d user_id = Some st →
  (engaged_count st + length (pending_ids st) = total_required st)%nat ∧
  (pending_ids st = [] ↔ engaged_count st = total_required st).
Proof.
  unfold status. destruct (get_active_session d user_id) as [session|]; [|done].
  intros [= <-]. cbn [engaged_count pending_ids total_required].
  set (all := dom (get_latest_sessions_map d)).
  set (engaged := list_to_set
                    (get_engagers_for_session d (d_session_id session))
                  : gset Z).
  set (others := order_by Z.leb (filter (fun uid => uid ≠ user_id) (elements all))).
  assert (NoDup others) as Hnd
    by apply order_by_NoDup, NoDup_filter, NoDup_elements.
  assert (∀ x, x ∈ others ↔ x ∈ all ∖ {[user_id]}) as Hothers.
  { intros x. unfold others.
    rewrite elem_of_order_by, list_elem_of_filter, elem_of_elements.
    set_solver. }
  assert (length (filter (fun uid => uid ∉ engaged) others)
          = size ((all ∖ {[user_id]}) ∖ engaged)) as Hpending.
  { unfold size, set_size. simpl. apply NoDup_same_length.
    - by apply NoDup_filter.
    - apply NoDup_elements.
    - intros x. rewrite list_elem_of_filter, elem_of_elements, Hothers.
      set_solver. }
  assert (length others = size (all ∖ {[user_id]})) as Hreq.
  { unfold size, set_size. simpl. apply NoDup_same_length;
      [done|apply NoDup_elements|].
    intros x. by rewrite elem_of_elements, Hothers. }
  assert (size (engaged ∩ (all ∖ {[user_id]}))
          + size ((all ∖ {[user_id]}) ∖ engaged)
          = size (all ∖ {[user_id]}))%nat as Hsplit.
  { rewrite <- size_union by set_solver. f_equal.
    apply set_eq. intros x.
    destruct (decide (x ∈ engaged)); set_solver. }
  split; [lia|].
  rewrite <- length_zero_iff_nil. lia.
Qed.

Lemma status_adds_up_witness :
  ∃ st, status (db three_creators) 2 = Some st ∧
        (engaged_count st + length (pending_ids st) = total_required st)%nat.
Proof.
  exists (mkStatus (py "http://x/b") 0 2 [1; 3]).
  destruct (status_adds_up (db three_creators) 2
              (mkStatus (py "http://x/b") 0 2 [1; 3])) as [Hsum _].
  - vm_compute. reflexivity.
  - split; [vm_compute; reflexivity|exact Hsum].
Defined.

(** ** Sorted queries *)

Section sorted.
Context {A : Type} (key : A -> Z).



Lemma insert_by_asc_sorted x l :
  StronglySorted (fun a b => key a <= key b) l →
  StronglySorted (fun a b => key a <= key b) (insert_by (asc key) x l).
Proof.
  induction l as [|y l IH]; intros Hl; simpl.
  - repeat constructor.
  - apply StronglySorted_cons in Hl as [Hy Hl]. unfold asc at 1.
    destruct (Z.leb_spec (key x) (key y)) as [Hle|Hlt].
    + apply StronglySorted_cons. split.
      * apply Forall_cons. split; [done|].
        eapply Forall_impl; [exact Hy|]. intros z Hz. simpl in *. lia.
      * by apply StronglySorted_cons.
    + apply StronglySorted_cons. split; [|by apply IH].
      rewrite insert_by_perm. apply Forall_cons. split; [lia|done].
Qed.

Lemma order_by_asc_sorted l :
  StronglySorted (fun a b => key a <= key b) (order_by (asc key) l).
Proof.
  induction l as [|x l IH]; [constructor|].
  rewrite order_by_cons. by apply insert_by_asc_sorted.
Qed.
End sorted.



Lemma NoDup_fmap_filter {A B} (f : A -> B) (P : A -> Prop)
    `{∀ x, Decision (P x)} (l : list A) :
  NoDup (f <$> l) → NoDup (f <$> filter P l).
Proof.
  induction l as [|x l IH]; [done|].
  rewrite fmap_cons, NoDup_cons, filter_cons. intros [Hx Hl].
  destruct (decide (P x)); [|by apply IH].
  rewrite fmap_cons. apply NoDup_cons. split; [|by apply IH].
  intros (y & Hy & [_ Hin]%list_elem_of_filter)%list_elem_of_fmap.
  apply Hx. rewrite Hy. by apply list_elem_of_fmap_2.
Qed.

(** X14. [get_engagers_for_session] lists the engagers of the rows that
    target the session, in ascending order of [engaged_at]: a user is
    listed exactly when an edge from that user to the session is stored,
    and when edges are unique nobody is listed twice. *)
Theorem get_engagers_ordered d session_id :
  (∃ rows,
      get_engagers_for_session d session_id = Engagement.engager_id <$> rows ∧
      rows ≡ₚ filter (fun g => Engagement.target_session_id g = session_id)
                     (engagements d) ∧
      StronglySorted
        (fun a b => Engagement.engaged_at a <= Engagement.engaged_at b) rows) ∧
  (∀ u, u ∈ get_engagers_for_session d session_id ↔ edge d u session_id) ∧
  (unique_edges d → NoDup (get_engagers_for_session d session_id)).
Proof.
  split; [|split].
  - eexists. split; [reflexivity|]. split.
    + apply order_by_perm.
    + apply order_by_asc_sorted.
  - intros u. apply elem_of_get_engagers.
  - intros Huniq. unfold get_engagers_for_session.
    set (rows := order_by (asc Engagement.engaged_at)
                   (filter (fun g => Engagement.target_session_id g = session_id)
                           (engagements d))).
    assert (NoDup (edge_pair <$> rows)) as Hpairs.
    { unfold rows. rewrite order_by_perm.
      by apply NoDup_fmap_filter. }
    assert (∀ g, g ∈ rows → Engagement.target_session_id g = session_id)
      as Htarget.
    { intros g. unfold rows.
      rewrite elem_of_order_by, list_elem_of_filter. by intros [? _]. }
    assert (Engagement.engager_id <$> rows = fst <$> (edge_pair <$> rows))
      as -> by (by rewrite <- list_fmap_compose).
    apply NoDup_fmap_2_strong; [|done].
    intros [e1 t1] [e2 t2] (g1 & Hg1 & Hin1)%list_elem_of_fmap
           (g2 & Hg2 & Hin2)%list_elem_of_fmap Hfst.
    simpl in Hfst. subst e2.
    injection Hg1 as -> ->. injection Hg2 as Heq ->.
    by rewrite (Htarget g1 Hin1), (Htarget g2 Hin2).
Qed.

(** ** [mark_engaged] *)




(** ** The "all clear" of [check_engagement] *)

Lemma latest_rows_keys d o :
  o ∈ fst <$> latest_session_rows d →
  is_Some (dict_of_rows (latest_session_rows d) !! o).
Proof.
  intros ([o' m] & -> & Hin)%list_elem_of_fmap. exists m.
  apply (get_latest_sessions_map_lookup d o' m).
  by apply elem_of_latest_session_rows.
Qed.

Lemma latest_rows_owner d v :
  v ∈ fst <$> latest_session_rows d ↔ has_session d v.
Proof.
  by rewrite latest_session_groups, elem_of_order_by, elem_of_remove_dups.
Qed.

(** X16. [get_non_engaged_users] returns the empty list, so that
    [check_engagement] answers "All Clear", exactly when every session
    owner has an edge to the latest session of every other owner. In
    particular it is empty when no session is stored and when all stored
    sessions belong to one user. *)
Theorem get_non_engaged_users_all_clear d :
  (get_non_engaged_users d = Some [] ↔
   ∀ u o sid, has_session d u → o ≠ u → is_latest d o sid → edge d u sid) ∧
  (sessions d = [] → get_non_engaged_users d = Some []) ∧
  (∀ u, (∀ s, s ∈ sessions d → Session.user_id s = u) →
        get_non_engaged_users d = Some []).
Proof.
  assert (get_non_engaged_users d = Some [] ↔
          ∀ u o sid, has_session d u → o ≠ u → is_latest d o sid →
                     edge d u sid) as Hiff.
  { unfold get_non_engaged_users.
    destruct (non_engaged_loop_spec d _ _ (latest_rows_keys d)
                (fst <$> latest_session_rows d)) as (res & -> & Hfst & _).
    split.
    - intros [= ->] u o sid Hu Ho Hlatest.
      destruct (has_engaged d u sid) eqn:Hedge;
        [by apply has_engaged_edge|].
      apply has_engaged_no_edge in Hedge.
      assert (u ∈ filter
                (fun u => missing_engagement d
                            (dict_of_rows (latest_session_rows d)) u
                            (fst <$> latest_session_rows d) = Some true)
                (fst <$> latest_session_rows d)) as Hin.
      { apply list_elem_of_filter. split; [|by apply latest_rows_owner].
        destruct (missing_engagement_spec d _ _ (latest_rows_keys d) u
                    (fst <$> latest_session_rows d))
          as (missing & -> & Hspec); [done|].
        f_equal. apply Hspec. exists o, sid. split.
        { apply latest_rows_owner. destruct Hlatest as [(s & Hs & <- & _) _].
          by apply list_elem_of_fmap_2. }
        split; [done|]. split; [|done].
        by apply get_latest_sessions_map_lookup. }
      rewrite <- Hfst in Hin. inversion Hin.
    - intros Hall. f_equal.
      destruct res as [|[u name] res]; [done|]. exfalso.
      assert (u ∈ fst <$> (u, name) :: res) as Hin by left.
      rewrite Hfst in Hin. apply list_elem_of_filter in Hin as [Hmiss Hu].
      destruct (missing_engagement_spec d _ _ (latest_rows_keys d) u
                  (fst <$> latest_session_rows d))
        as (missing & Hm & Hspec); [done|].
      rewrite Hm in Hmiss. injection Hmiss as ->.
      destruct (proj1 Hspec eq_refl) as (o & sid & Ho & Hne & Hlook & Hedge).
      apply Hedge, (Hall u o sid); [by apply latest_rows_owner|done|].
      by apply get_latest_sessions_map_lookup. }
  split; [done|]. split.
  - intros Hnil. apply Hiff. intros u o sid Hu. unfold has_session in Hu.
    rewrite Hnil in Hu. inversion Hu.
  - intros u Hone. apply Hiff.
    intros u' o sid (s & -> & Hs)%list_elem_of_fmap Ho
           [(s' & Hs' & <- & _) _].
    destruct Ho. by rewrite (Hone s Hs), (Hone s' Hs').
Qed.

(** ** The persisted configuration *)

Lemma filter_all {A} (P : A -> Prop) `{∀ x, Decision (P x)} (l : list A) :
  Forall P l → filter P l = l.
Proof.
  induction 1 as [|x l Hx Hl IH]; [done|].
  by rewrite filter_cons, decide_True, IH.
Qed.

Lemma split_on_no_sep sep s :
  sep ∉ s → split_on sep s = [s].
Proof.
  induction s as [|c s IH]; intros Hs; [done|].
  apply not_elem_of_cons in Hs as [Hc Hs]. cbn [split_on].
  destruct (N.eqb_spec c sep) as [->|_]; [done|]. by rewrite IH.
Qed.

Lemma split_on_app_sep sep x s :
  sep ∉ x → split_on sep (x ++ sep :: s) = x :: split_on sep s.
Proof.
  induction x as [|c x IH]; intros Hx.
  - simpl. by rewrite N.eqb_refl.
  - apply not_elem_of_cons in Hx as [Hc Hx].
    change ((c :: x) ++ sep :: s) with (c :: (x ++ sep :: s)).
    cbn [split_on]. destruct (N.eqb_spec c sep) as [->|_]; [done|].
    by rewrite IH.
Qed.

(** [split] undoes [join] when no part contains the separator. *)
Lemma split_on_join sep parts :
  parts ≠ [] → Forall (fun p => sep ∉ p) parts →
  split_on sep (join [sep] parts) = parts.
Proof.
  induction parts as [|x parts IH]; intros Hne Hall; [done|].
  apply Forall_cons in Hall as [Hx Hall].
  destruct parts as [|y parts].
  - simpl. by apply split_on_no_sep.
  - change (join [sep] (x :: y :: parts))
      with (x ++ sep :: join [sep] (y :: parts)).
    rewrite split_on_app_sep by done. f_equal. by apply IH.
Qed.

Lemma lstrip_clean s :
  Forall (fun c => is_space c = false) s → lstrip s = s.
Proof. destruct s as [|c s]; [done|]. intros [Hc _]%Forall_cons. simpl. by rewrite Hc. Qed.

Lemma strip_clean s :
  Forall (fun c => is_space c = false) s → strip s = s.
Proof.
  intros Hs. unfold strip, rstrip. rewrite (lstrip_clean s) by done.
  rewrite lstrip_clean; [apply reverse_involutive|].
  by apply Forall_reverse.
Qed.

(** The characters of [str(i)]: digits, after at most a minus sign. *)
Lemma string_of_uint_digits d :
  Forall (fun c => is_digit c = true) (py (DecimalString.NilEmpty.string_of_uint d)).
Proof. induction d; simpl; by constructor. Qed.

Lemma str_of_int_chars z :
  str_of_int z ≠ [] ∧
  Forall (fun c => is_digit c = true ∨ c = 45%N) (str_of_int z).
Proof.
  unfold str_of_int, NilZero.string_of_int.
  assert (∀ d, py (NilZero.string_of_uint d) ≠ [] ∧
               Forall (fun c => is_digit c = true ∨ c = 45%N)
                      (py (NilZero.string_of_uint d))) as Huint.
  { intros d. unfold NilZero.string_of_uint. split.
    - by destruct d.
    - eapply Forall_impl.
      + destruct d; try apply string_of_uint_digits. by repeat constructor.
      + intros c Hc. by left. }
  destruct (Z.to_int z) as [d|d].
  - apply Huint.
  - split; [done|]. unfold py. cbn [list_ascii_of_string List.map].
    apply Forall_cons. split; [by right|]. apply Huint.
Qed.

Lemma numeral_char_clean c :
  is_digit c = true ∨ c = 45%N → c ≠ comma ∧ is_space c = false.
Proof.
  intros [Hd| ->]; [|done]. unfold is_digit in Hd.
  apply andb_true_iff in Hd as [H1%N.leb_le H2%N.leb_le].
  split; [unfold comma; lia|]. unfold is_space.
  repeat match goal with
         | |- context [(?a <=? c)%N] => destruct (N.leb_spec a c); try lia
         | |- context [(c <=? ?a)%N] => destruct (N.leb_spec c a); try lia
         | |- context [(c =? ?a)%N] => destruct (N.eqb_spec c a); try lia
         end; done.
Qed.

Lemma str_of_int_clean z :
  comma ∉ str_of_int z ∧ Forall (fun c => is_space c = false) (str_of_int z).
Proof.
  destruct (str_of_int_chars z) as [_ Hall]. rewrite Forall_forall in Hall.
  split.
  - intros Hin. by destruct (numeral_char_clean _ (Hall _ Hin)).
  - apply Forall_forall. intros c Hc.
    by destruct (numeral_char_clean _ (Hall _ Hc)).
Qed.

Lemma join_numerals_nonempty l :
  l ≠ [] → join [comma] (str_of_int <$> l) ≠ [].
Proof.
  destruct l as [|i l]; [done|]. intros _.
  destruct (str_of_int_chars i) as [Hne _].
  destruct l; csimpl; [done|]. by destruct (str_of_int i).
Qed.

Section config_facts.
Variable int_of_str : str -> option Z.

Lemma add_ints_numerals acc l :
  (∀ i, i ∈ l → int_of_str (str_of_int i) = Some i) →
  add_ints int_of_str acc (str_of_int <$> l) = acc ∪ list_to_set l.
Proof.
  revert acc. induction l as [|i l IH]; intros acc Hint.
  - simpl. set_solver.
  - csimpl. unfold add_ints in *. cbn [foldl]. rewrite Hint by left.
    rewrite IH by (intros j Hj; apply Hint; by right). set_solver.
Qed.

(** Reading back the numerals that [set_allowed_channel_ids] wrote. *)
Lemma read_numerals l :
  l ≠ [] → (∀ i, i ∈ l → int_of_str (str_of_int i) = Some i) →
  let csv := join [comma] (str_of_int <$> l) in
  add_ints int_of_str ∅
    (strip <$> filter (fun p => strip p ≠ []) (split_on comma csv))
  = list_to_set l ∧
  _parse_int_list int_of_str csv = list_to_set l.
Proof.
  intros Hne Hint csv.
  assert (split_on comma csv = str_of_int <$> l) as Hsplit.
  { apply split_on_join; [by destruct l|].
    apply Forall_fmap, Forall_forall. intros i _. apply str_of_int_clean. }
  assert (strip <$> (str_of_int <$> l) = str_of_int <$> l) as Hstrip.
  { rewrite <- list_fmap_compose. apply list_fmap_ext. intros _ i _. simpl.
    apply strip_clean, str_of_int_clean. }
  assert (∀ p, p ∈ str_of_int <$> l → p ≠ []) as Hnonempty.
  { intros p (i & -> & _)%list_elem_of_fmap. apply str_of_int_chars. }
  split.
  - rewrite Hsplit.
    assert (filter (fun p => strip p ≠ []) (str_of_int <$> l)
            = str_of_int <$> l) as ->.
    { apply filter_all, Forall_forall.
      intros p Hp. pose proof Hp as (i & -> & _)%list_elem_of_fmap.
      rewrite strip_clean by apply str_of_int_clean. by apply Hnonempty. }
    rewrite Hstrip, add_ints_numerals by done. set_solver.
  - unfold _parse_int_list. fold csv. rewrite Hsplit, Hstrip.
    assert (filter (fun p => p ≠ []) (str_of_int <$> l) = str_of_int <$> l)
      as ->.
    { apply filter_all, Forall_forall. apply Hnonempty. }
    rewrite add_ints_numerals by done. set_solver.
Qed.
End config_facts.

Section config_round_trip.
Variable int_of_str : str -> option Z.

Lemma sorted_elements_set (ids : gset Z) :
  list_to_set (order_by Z.leb (elements ids)) = ids.
Proof.
  apply set_eq. intros x.
  by rewrite elem_of_list_to_set, elem_of_order_by, elem_of_elements.
Qed.

Lemma allowed_ids_read_back d (ids : gset Z) :
  ids ≠ ∅ → (∀ i, i ∈ ids → int_of_str (str_of_int i) = Some i) →
  get_allowed_channel_ids int_of_str
    (set_allowed_channel_ids d (Some ids)) = Some ids.
Proof.
  intros Hne Hint. unfold set_allowed_channel_ids, get_allowed_channel_ids.
  rewrite decide_False by done. unfold set_config, get_config.
  cbn [configs with_configs]. rewrite lookup_insert_eq.
  assert (order_by Z.leb (elements ids) ≠ []) as Hl.
  { rewrite order_by_nil. intros Hnil. apply Hne.
    by apply elements_empty_inv in Hnil as ->%leibniz_equiv. }
  rewrite decide_False by (by apply join_numerals_nonempty).
  destruct (read_numerals int_of_str (order_by Z.leb (elements ids)) Hl)
    as [Hread _].
  { intros i. rewrite elem_of_order_by, elem_of_elements. apply Hint. }
  cbv zeta in Hread. rewrite Hread, sorted_elements_set.
  by rewrite decide_False.
Qed.

(** X17. The allowed channels survive the store: what
    [set_allowed_channel_ids] writes for a non-empty set,
    [get_allowed_channel_ids] reads back as the same set, and so does the
    parser of the ALLOWED_CHANNEL_IDS variable, provided [int] reads back
    the numerals [str] prints for these ids; every other key is left
    alone. Storing no set or the empty set removes the key, which reads
    back as "all channels allowed". Whatever is stored, the three tables
    and their counters are untouched. *)
Theorem allowed_channel_ids_round_trip d (ids : gset Z) :
  ids ≠ ∅ → (∀ i, i ∈ ids → int_of_str (str_of_int i) = Some i) →
  get_allowed_channel_ids int_of_str
    (set_allowed_channel_ids d (Some ids)) = Some ids ∧
  (∃ csv, get_config (set_allowed_channel_ids d (Some ids))
            (py "allowed_channel_ids") = Some csv ∧
          _parse_int_list int_of_str csv = ids) ∧
  (∀ key, key ≠ py "allowed_channel_ids" →
          get_config (set_allowed_channel_ids d (Some ids)) key
          = get_config d key) ∧
  get_allowed_channel_ids int_of_str (set_allowed_channel_ids d None) = None ∧
  get_allowed_channel_ids int_of_str (set_allowed_channel_ids d (Some ∅))
    = None ∧
  (∀ stored, same_tables d (set_allowed_channel_ids d stored)).
Proof.
  intros Hne Hint. split; [by apply allowed_ids_read_back|]. split.
  { unfold set_allowed_channel_ids, set_config, get_config.
    rewrite decide_False by done. cbn [configs with_configs].
    rewrite lookup_insert_eq.
    eexists. split; [reflexivity|].
    assert (order_by Z.leb (elements ids) ≠ []) as Hl.
    { rewrite order_by_nil. intros Hnil. apply Hne.
      by apply elements_empty_inv in Hnil as ->%leibniz_equiv. }
    destruct (read_numerals int_of_str (order_by Z.leb (elements ids)) Hl)
      as [_ Hparse].
    { intros i. rewrite elem_of_order_by, elem_of_elements. apply Hint. }
    cbv zeta in Hparse. by rewrite Hparse, sorted_elements_set. }
  split.
  { intros key Hkey. unfold set_allowed_channel_ids, set_config, get_config.
    rewrite decide_False by done. cbn [configs with_configs].
    by rewrite lookup_insert_ne. }
  split; [|split].
  - unfold set_allowed_channel_ids, get_allowed_channel_ids, get_config.
    cbn [configs with_configs]. by rewrite lookup_delete_eq.
  - unfold set_allowed_channel_ids, get_allowed_channel_ids, get_config.
    rewrite decide_True by done. cbn [configs with_configs].
    by rewrite lookup_delete_eq.
  - intros stored. apply set_allowed_channel_ids_tables.
Qed.

(** X18. An override of the allowed channels survives a restart: after
    [set_yap_channel] has gone through and written its set to the store,
    [setup_hook] on a bot started on that store loads exactly the set the
    command left on the running bot, whatever the environment configured,
    and leaves the store as the command left it, provided [int] reads
    back the numerals of the channel ids. *)
Theorem allowed_channels_survive_restart bot channel_id add started :
  (∀ i, i = channel_id ∨
        (∃ allowed, allowed_channel_ids bot = Some allowed ∧ i ∈ allowed) →
        int_of_str (str_of_int i) = Some i) →
  allowed_channel_ids
    (setup_hook int_of_str
       (with_db started (db (set_yap_channel bot channel_id add true))))
  = allowed_channel_ids (set_yap_channel bot channel_id add true) ∧
  db (setup_hook int_of_str
        (with_db started (db (set_yap_channel bot channel_id add true))))
  = db (set_yap_channel bot channel_id add true).
Proof.
  intros Hint. split; [|done].
  unfold setup_hook, set_yap_channel.
  cbn [negb db with_db allowed_channel_ids].
  rewrite allowed_ids_read_back; [done|destruct add; set_solver|].
  intros i Hi. apply Hint.
  destruct add; [|left; set_solver].
  destruct (allowed_channel_ids bot) as [allowed|]; simpl in Hi.
  - apply elem_of_union in Hi as [Hi|Hi]; [right; by exists allowed|].
    left. set_solver.
  - left. set_solver.
Qed.

(** X19. The log channel survives a restart: after [set_log] has gone
    through and stored the channel id, the bot attribute is that id,
    [get_config_int] reads it back, and [setup_hook] on a bot started on
    that store loads it as the log channel, except that a stored id of 0
    is ignored; the stored allowed channels are not affected. *)
Theorem log_channel_survives_restart bot channel_id started :
  int_of_str (str_of_int channel_id) = Some channel_id →
  log_channel_id (set_log bot channel_id true) = channel_id ∧
  get_config_int int_of_str (db (set_log bot channel_id true))
    (py "log_channel_id") = Some channel_id ∧
  log_channel_id
    (setup_hook int_of_str (with_db started (db (set_log bot channel_id true))))
    = (if decide (channel_id = 0) then log_channel_id started else channel_id) ∧
  get_allowed_channel_ids int_of_str (db (set_log bot channel_id true))
    = get_allowed_channel_ids int_of_str (db bot).
Proof.
  intros Hint. split; [done|].
  assert (get_config_int int_of_str (db (set_log bot channel_id true))
            (py "log_channel_id") = Some channel_id) as Hget.
  { unfold get_config_int, set_log, set_config, get_config.
    cbn [negb db configs with_configs]. by rewrite lookup_insert_eq. }
  split; [done|]. split.
  - unfold setup_hook. cbn [log_channel_id db with_db]. by rewrite Hget.
  - unfold get_allowed_channel_ids, set_log, set_config, get_config.
    cbn [negb db configs with_configs]. by rewrite lookup_insert_ne.
Qed.
End config_round_trip.

Lemma allowed_channel_ids_round_trip_witness :
  get_allowed_channel_ids read_decimal sample_configs
  = Some ({[12; 7]} : gset Z).
Proof.
  destruct (allowed_channel_ids_round_trip read_decimal empty_db
              ({[12; 7]} : gset Z)) as [Hread _].
  - set_solver.
  - intros i Hi. assert (i = 12 ∨ i = 7) as [-> | ->] by set_solver;
      vm_compute; reflexivity.
  - exact Hread.
Defined.

Lemma allowed_channels_survive_restart_witness :
  allowed_channel_ids
    (setup_hook read_decimal
       (with_db sample_bot (db (set_yap_channel sample_bot 7 true true))))
  = Some ({[7]} : gset Z).
Proof.
  destruct (allowed_channels_survive_restart read_decimal sample_bot 7 true
              sample_bot) as [Hallowed _].
  - intros i [->|(allowed & Hallowed & _)].
    + vm_compute. reflexivity.
    + discriminate Hallowed.
  - rewrite Hallowed. vm_compute. reflexivity.
Defined.

Lemma log_channel_survives_restart_witness :
  log_channel_id
    (setup_hook read_decimal
       (with_db sample_bot (db (set_log sample_bot 4242 true)))) = 4242.
Proof.
  destruct (log_channel_survives_restart read_decimal sample_bot 4242
              sample_bot) as (_ & _ & Hlog & _).
  - vm_compute. reflexivity.
  - exact Hlog.
Defined.
